(** * monitor_badminton: the slot merger, the notification memory and the
    schedule policy of [docker-image/scripts/monitor_appointment.py]

    The development embeds the pure core of the monitoring script: Python
    strings are lists of Unicode code points, the [re] patterns of the
    script are terms of a small backtracking matcher, the memory file is a
    finite map from signatures to entries, and what the script reads from
    its environment (the clock, the memory file, the outcome of a write,
    the environment variables) is an explicit argument. *)

From Stdlib Require Import ZArith NArith List String Ascii Bool Lia.
From stdpp Require Import gmap list sorting.

Open Scope Z_scope.

(** ** Python strings *)

Module PyStr.

(** A [str] is a sequence of code points. *)
Definition char := N.
Definition str := list char.

(** UTF-8 decoding, used only to write literals of the script legibly. *)
Fixpoint utf8_decode_aux (fuel : nat) (bs : list N) : str :=
  match fuel with
  | O => []
  | S fuel' =>
    match bs with
    | [] => []
    | b0 :: r0 =>
      if (b0 <? 128)%N then b0 :: utf8_decode_aux fuel' r0
      else if (b0 <? 224)%N then
        match r0 with
        | b1 :: r1 =>
          ((b0 - 192) * 64 + (b1 - 128))%N :: utf8_decode_aux fuel' r1
        | _ => []
        end
      else if (b0 <? 240)%N then
        match r0 with
        | b1 :: b2 :: r2 =>
          ((b0 - 224) * 4096 + (b1 - 128) * 64 + (b2 - 128))%N
            :: utf8_decode_aux fuel' r2
        | _ => []
        end
      else
        match r0 with
        | b1 :: b2 :: b3 :: r3 =>
          ((b0 - 240) * 262144 + (b1 - 128) * 4096 + (b2 - 128) * 64
             + (b3 - 128))%N :: utf8_decode_aux fuel' r3
        | _ => []
        end
    end
  end.

Definition py (s : string) : str :=
  let bs := map N_of_ascii (list_ascii_of_string s) in
  utf8_decode_aux (length bs) bs.

(** [str.isspace] of one code point; [str.strip], [str.split] and the
    pattern class [\s] all use this table. *)
Definition isspace (c : char) : bool :=
  ((9 <=? c) && (c <=? 13) || (28 <=? c) && (c <=? 32)
   || (c =? 133) || (c =? 160) || (c =? 5760)
   || (8192 <=? c) && (c <=? 8202)
   || (c =? 8232) || (c =? 8233) || (c =? 8239) || (c =? 8287)
   || (c =? 12288))%N.

(** The decimal digits (category Nd) of the Unicode database of the
    interpreter (Unicode 14.0), each run of ten starting at the code point
    of its zero.  The pattern class [\d] and [int] both use this table. *)
Definition decimal_zeros : list N :=
  [48; 1632; 1776; 1984; 2406; 2534; 2662; 2790; 2918; 3046; 3174; 3302;
   3430; 3558; 3664; 3792; 3872; 4160; 4240; 6112; 6160; 6470; 6608; 6784;
   6800; 6992; 7088; 7232; 7248; 42528; 43216; 43264; 43472; 43504; 43600;
   44016; 65296; 66720; 68912; 69734; 69872; 69942; 70096; 70384; 70736;
   70864; 71248; 71360; 71472; 71904; 72016; 72784; 73040; 73120; 92768;
   92864; 93008; 120782; 120792; 120802; 120812; 120822; 123200; 123632;
   125264; 130032]%N.

Fixpoint decimal_in (zeros : list N) (c : char) : option Z :=
  match zeros with
  | [] => None
  | z :: zeros' =>
    if ((z <=? c) && (c <? z + 10))%N then Some (Z.of_N (c - z))
    else decimal_in zeros' c
  end.

Definition decimal_value (c : char) : option Z := decimal_in decimal_zeros c.

Definition isdecimal (c : char) : bool :=
  match decimal_value c with Some _ => true | None => false end.

(** [s.lstrip()], [s.rstrip()], [s.strip()] *)
Fixpoint lstrip (s : str) : str :=
  match s with
  | c :: s' => if isspace c then lstrip s' else s
  | [] => []
  end.

Definition rstrip (s : str) : str := rev (lstrip (rev s)).

Definition strip (s : str) : str := rstrip (lstrip s).

(** [s.split()]: the maximal runs of characters that are not whitespace.
    [cur] is the run being read, reversed. *)
Fixpoint split_aux (cur : str) (s : str) : list str :=
  match s with
  | [] => match cur with [] => [] | _ => [rev cur] end
  | c :: s' =>
    if isspace c then
      match cur with
      | [] => split_aux [] s'
      | _ => rev cur :: split_aux [] s'
      end
    else split_aux (c :: cur) s'
  end.

Definition split (s : str) : list str := split_aux [] s.

(** [s.split(sep)] for a separator of one character. *)
Fixpoint split_on_aux (sep : char) (cur : str) (s : str) : list str :=
  match s with
  | [] => [rev cur]
  | c :: s' =>
    if (c =? sep)%N then rev cur :: split_on_aux sep [] s'
    else split_on_aux sep (c :: cur) s'
  end.

Definition split_on (sep : char) (s : str) : list str := split_on_aux sep [] s.

(** [s.replace(old, new)] for an [old] of one character. *)
Definition replace1 (old : char) (new : str) (s : str) : str :=
  flat_map (fun c => if (c =? old)%N then new else [c]) s.

(** [sub in s] *)
Fixpoint startswith (sub s : str) : bool :=
  match sub, s with
  | [], _ => true
  | _ :: _, [] => false
  | a :: sub', b :: s' => (a =? b)%N && startswith sub' s'
  end.

Fixpoint contains (sub s : str) : bool :=
  startswith sub s
  || match s with
     | [] => false
     | _ :: s' => contains sub s'
     end.

(** [s.splitlines()]: the line boundaries are LF, CR, CR LF, VT, FF, FS, GS,
    RS, NEL, LS and PS; no empty last line is produced. *)
Definition islinebreak (c : char) : bool :=
  ((10 <=? c) && (c <=? 13) || (28 <=? c) && (c <=? 30)
   || (c =? 133) || (c =? 8232) || (c =? 8233))%N.

Fixpoint splitlines_aux (cur : str) (s : str) : list str :=
  match s with
  | [] => match cur with [] => [] | _ => [rev cur] end
  | c :: s' =>
    if islinebreak c then
      rev cur ::
        match s' with
        | c' :: s'' =>
          if ((c =? 13) && (c' =? 10))%N then splitlines_aux [] s''
          else splitlines_aux [] s'
        | [] => []
        end
    else splitlines_aux (c :: cur) s'
  end.

Definition splitlines (s : str) : list str := splitlines_aux [] s.

(** [int(s)] on a string of decimal digits.  ([int] also accepts a sign,
    surrounding whitespace and underscores; the merger only applies it to
    captures of [\d{1,2}] and [\d{2}].)  [None] is [ValueError]. *)
Fixpoint int_digits (acc : Z) (s : str) : option Z :=
  match s with
  | [] => Some acc
  | c :: s' =>
    match decimal_value c with
    | Some d => int_digits (10 * acc + d) s'
    | None => None
    end
  end.

Definition int (s : str) : option Z :=
  match s with
  | [] => None
  | _ => int_digits 0 s
  end.

(** [str(n)] and the format specification [02d] of an integer. *)
Fixpoint uint_chars (d : Decimal.uint) : str :=
  match d with
  | Decimal.Nil => []
  | Decimal.D0 d' => 48%N :: uint_chars d'
  | Decimal.D1 d' => 49%N :: uint_chars d'
  | Decimal.D2 d' => 50%N :: uint_chars d'
  | Decimal.D3 d' => 51%N :: uint_chars d'
  | Decimal.D4 d' => 52%N :: uint_chars d'
  | Decimal.D5 d' => 53%N :: uint_chars d'
  | Decimal.D6 d' => 54%N :: uint_chars d'
  | Decimal.D7 d' => 55%N :: uint_chars d'
  | Decimal.D8 d' => 56%N :: uint_chars d'
  | Decimal.D9 d' => 57%N :: uint_chars d'
  end.

Definition digits_of (n : N) : str := uint_chars (N.to_uint n).

Definition format_d (z : Z) : str :=
  if z <? 0 then 45%N :: digits_of (Z.abs_N z) else digits_of (Z.abs_N z).

Definition format_02d (z : Z) : str :=
  let ds := digits_of (Z.abs_N z) in
  if z <? 0 then 45%N :: repeat 48%N (1 - length ds) ++ ds
  else repeat 48%N (2 - length ds) ++ ds.

End PyStr.

Import PyStr.

(** ** The [re] patterns of the script

    A backtracking matcher for the fragment of [re] the script uses: single
    character classes, greedy and lazy bounded repetition of a class,
    sequence, ordered alternation, groups and [^].  The matcher tries the
    alternatives in the order of [re]: the left branch of [|] first, one more
    repetition first for a greedy quantifier and the continuation first for a
    lazy one; [search] tries the start positions from left to right. *)

Module Re.

Inductive cclass :=
| CAny                      (* [.], any character except a line feed *)
| CDigit                    (* [\d] *)
| CSpace                    (* [\s] *)
| CLit (c : char)           (* a literal character *)
| COneOf (cs : list char).  (* a set [[...]] of literal characters *)

Definition class_matches (cl : cclass) (c : char) : bool :=
  match cl with
  | CAny => negb (c =? 10)%N
  | CDigit => isdecimal c
  | CSpace => isspace c
  | CLit c' => (c =? c')%N
  | COneOf cs => existsb (fun c' => (c =? c')%N) cs
  end.

Inductive re :=
| One (cl : cclass)
| Rep (cl : cclass) (greedy : bool) (lo : nat) (hi : option nat)
| Seq (a b : re)
| Alt (a b : re)
| Group (name : string) (a : re)
| Bol.

(** The groups closed so far, the last one first. *)
Definition captures := list (string * str).

(** A continuation receives the position reached, the rest of the subject
    and the captures. *)
Definition cont (A : Type) := nat -> str -> captures -> option A.

Definition orelse {A} (x y : option A) : option A :=
  match x with Some _ => x | None => y end.

Definition hi_allows (hi : option nat) : bool :=
  match hi with Some O => false | _ => true end.

Fixpoint rep_match {A} (cl : cclass) (greedy : bool) (lo : nat)
    (hi : option nat) (pos : nat) (s : str) (g : captures) (k : cont A)
    : option A :=
  let stop := match lo with O => k pos s g | S _ => None end in
  let more :=
    match s with
    | c :: s' =>
      if class_matches cl c && hi_allows hi
      then rep_match cl greedy (Nat.pred lo) (option_map Nat.pred hi)
             (S pos) s' g k
      else None
    | [] => None
    end in
  if greedy then orelse more stop else orelse stop more.

Fixpoint re_match {A} (r : re) (pos : nat) (s : str) (g : captures)
    (k : cont A) : option A :=
  match r with
  | One cl =>
    match s with
    | c :: s' => if class_matches cl c then k (S pos) s' g else None
    | [] => None
    end
  | Rep cl greedy lo hi => rep_match cl greedy lo hi pos s g k
  | Seq a b =>
    re_match a pos s g (fun pos' s' g' => re_match b pos' s' g' k)
  | Alt a b => orelse (re_match a pos s g k) (re_match b pos s g k)
  | Group name a =>
    re_match a pos s g
      (fun pos' s' g' => k pos' s' ((name, firstn (pos' - pos) s) :: g'))
  | Bol => if Nat.eqb pos 0 then k pos s g else None
  end.

(** A match object: [group(0)] and the named groups. *)
Record rmatch := { m_text : str; m_groups : captures }.

Definition match_at (r : re) (pos : nat) (s : str) : option rmatch :=
  re_match r pos s []
    (fun pos' _ g => Some {| m_text := firstn (pos' - pos) s; m_groups := g |}).

Fixpoint search_from (r : re) (pos : nat) (s : str) : option rmatch :=
  orelse (match_at r pos s)
    match s with
    | _ :: s' => search_from r (S pos) s'
    | [] => None
    end.

(** [re.compile(r).search(s)] *)
Definition search (r : re) (s : str) : option rmatch := search_from r 0 s.

(** [m.group(name)] of a group that took part in the match. *)
Fixpoint assoc (name : string) (g : captures) : str :=
  match g with
  | [] => []
  | (n, v) :: g' => if String.eqb n name then v else assoc name g'
  end.

Definition group (m : rmatch) (name : string) : str := assoc name (m_groups m).

(** [\d{lo,hi}], [cl*] and [cl*?] *)
Definition digits (lo hi : nat) : re := Rep CDigit true lo (Some hi).
Definition star (cl : cclass) : re := Rep cl true 0 None.
Definition lazy_star (cl : cclass) : re := Rep cl false 0 None.

Fixpoint seq_of (rs : list re) (last : re) : re :=
  match rs with
  | [] => last
  | r :: rs' => Seq r (seq_of rs' last)
  end.

End Re.

Import Re.

(** The first character of a literal. *)
Definition ch (s : string) : char := hd 0%N (py s).

(** ** Configuration read at import time *)

Record config := {
  LEAST_TIME_LENGTH : Z;   (* [int(os.environ.get("LEAST_TIME_LENGTH", "1"))] *)
  MEMORY_THRESHOLD : Z     (* [int(os.environ.get("MEMORY_THRESHOLD", "2"))] *)
}.

(** ** Schedule policy *)

(** [get_check_days_count]; [hour] is [now.hour] of the Asia/Shanghai
    wall clock, the same function in both variants of the script. *)
Definition get_check_days_count (hour : Z) : Z :=
  if hour <? 18 then 3 else 4.

(** [check_time_availability]; [begin_hour] and [end_hour] are the values
    of BEGIN_HOUR and END_HOUR. *)
Definition check_time_availability (hour begin_hour end_hour : Z) : bool :=
  if (begin_hour <=? hour) && (hour <? end_hour) then true else false.

(** ** Notification memory *)

(** One value of the memory document, [{count:int, last_seen:'YYYY-MM-DD'}]
    as [load_memory] documents it.  A field is [None] when the key is
    missing, which is what the [.get] calls of the script allow for. *)
Record entry := { count : option Z; last_seen : option str }.

(** What [MEMORY_PATH] holds when it is read. *)
Inductive memory_file :=
| FileMissing                         (* [path.exists()] is false *)
| FileUnreadable                      (* [open] or [json.load] raises *)
| FileNotDict                         (* JSON, but no dict *)
| FileDict (data : gmap str entry).

(** What a write to [MEMORY_PATH] does: it succeeds, or it raises and leaves
    the file in the state [remains]. *)
Inductive write_outcome :=
| WriteOk
| WriteFails (remains : memory_file).

Definition load_memory (f : memory_file) : gmap str entry :=
  match f with
  | FileMissing => ∅
  | FileDict data => data
  | FileNotDict => ∅
  | FileUnreadable => ∅
  end.

(** [save_memory] catches the exception of a failed write itself. *)
Definition save_memory (mem : gmap str entry) (w : write_outcome)
    : memory_file :=
  match w with
  | WriteOk => FileDict mem
  | WriteFails remains => remains
  end.

(** [entry.get("last_seen") == today] *)
Definition seen_today (today : str) (e : entry) : bool :=
  bool_decide (last_seen e = Some today).

(** The body of the loop over [messages] for a [slot_id] that is not
    empty: the state is [(updated, to_notify)].  For a stored dict the test
    [entry and ...] is the test on [last_seen]: an empty dict has no
    [last_seen]. *)
Definition classify_slot (today : str) (threshold : Z)
    (st : gmap str entry * list str) (slot_id : str)
    : gmap str entry * list str :=
  let '(updated, to_notify) := st in
  let cnt :=
    match updated !! slot_id with
    | Some e => if seen_today today e then default 0 (count e) + 1 else 1
    | None => 1
    end in
  let updated :=
    <[slot_id := {| count := Some cnt; last_seen := Some today |}]> updated in
  if cnt <=? threshold then (updated, to_notify ++ [slot_id])
  else (updated, to_notify).

Definition classify_one (today : str) (threshold : Z)
    (st : gmap str entry * list str) (m : str) : gmap str entry * list str :=
  let slot_id := strip m in
  match slot_id with
  | [] => st
  | _ => classify_slot today threshold st slot_id
  end.

(** The keys whose entry was not seen today, then [updated.pop(k, None)]
    for each of them. *)
Definition keys_to_delete (today : str) (updated : gmap str entry) : list str :=
  (map_to_list updated) ≫= (fun kv => if seen_today today kv.2 then [] else [kv.1]).

Definition prune (today : str) (updated : gmap str entry) : gmap str entry :=
  fold_left (fun m k => delete k m) (keys_to_delete today updated) updated.

(** [filter_messages_by_memory]; [today] is the date of the Beijing clock
    as [%Y-%m-%d], [file] and [w] are the memory file as the call finds it
    and the outcome of its write.  The result is the returned pair and the
    memory file the call leaves. *)
Definition filter_messages_by_memory (cfg : config) (today : str)
    (file : memory_file) (w : write_outcome)
    (messages : list str) (threshold : option Z)
    : (list str * gmap str entry) * memory_file :=
  let threshold := default (MEMORY_THRESHOLD cfg) threshold in
  let mem := load_memory file in
  let '(updated, to_notify) :=
    fold_left (classify_one today threshold) messages (mem, []) in
  let updated := prune today updated in
  ((to_notify, updated), save_memory updated w).

(** ** Period merger *)

Definition hhmm : re :=
  seq_of [digits 1 2; One (COneOf (py ":："))]
         (digits 2 2).

(** [^(?P<left>.*?)\|.*\((?P<start>\d{1,2}[:：]\d{2})\s*-\s*(?P<end>\d{1,2}[:：]\d{2})\)] *)
Definition time_re : re :=
  seq_of [Bol; Group "left" (lazy_star CAny); One (CLit (ch "|"));
          star CAny; One (CLit (ch "("));
          Group "start" hhmm;
          star CSpace; One (CLit (ch "-")); star CSpace;
          Group "end" hhmm]
         (One (CLit (ch ")"))).

(** [\d{4}[-/]\d{1,2}[-/]\d{1,2}] *)
Definition full_date_re : re :=
  seq_of [digits 4 4; One (COneOf (py "-/"));
          digits 1 2; One (COneOf (py "-/"))]
         (digits 1 2).

(** [\d{1,2}-\d{1,2}] *)
Definition month_day_re : re :=
  seq_of [digits 1 2; One (CLit (ch "-"))]
         (digits 1 2).

(** [\d{1,2}月\d{1,2}日] *)
Definition cn_month_day_re : re :=
  seq_of [digits 1 2; One (CLit (ch "月"));
          digits 1 2]
         (One (CLit (ch "日"))).

Definition date_re : re :=
  Alt (Group "1" full_date_re)
      (Alt (Group "2" month_day_re) (Group "3" cn_month_day_re)).

(** [normalize_date_key]; [left.split()[0]] exists because [left] is
    stripped and not empty there (lemma [split_stripped_nonempty]). *)
Definition normalize_date_key (left : str) : str :=
  let left := strip left in
  match left with
  | [] => left
  | _ =>
    match search date_re left with
    | Some dm => m_text dm
    | None => hd [] (split left)
    end
  end.

(** The body of the first loop up to [start_min]: [None] is [continue]. *)
Definition parse_line (include_morning : bool) (line : str)
    : option (str * Z) :=
  match line with
  | [] => None
  | _ =>
    if negb include_morning && contains (py "上午") line then None
    else
      match search time_re line with
      | None => None
      | Some m =>
        let left := group m "left" in
        let date_key := normalize_date_key left in
        let start := replace1 (ch "：") (py ":") (group m "start") in
        match map int (split_on (ch ":") start) with
        | [Some sh; Some sm] => Some (date_key, sh * 60 + sm)
        | _ => None
        end
      end
  end.

(** [pools.setdefault(date_key, set()).add(start_min)]: a dict keeps its
    keys in the order of their first insertion. *)
Fixpoint pools_add (date_key : str) (start_min : Z)
    (pools : list (str * gset Z)) : list (str * gset Z) :=
  match pools with
  | [] => [(date_key, {[start_min]})]
  | (k, starts) :: pools' =>
    if decide (k = date_key) then (k, {[start_min]} ∪ starts) :: pools'
    else (k, starts) :: pools_add date_key start_min pools'
  end.

Definition collect_line (include_morning : bool)
    (pools : list (str * gset Z)) (line : str) : list (str * gset Z) :=
  match parse_line include_morning line with
  | Some (date_key, start_min) => pools_add date_key start_min pools
  | None => pools
  end.

(** [sorted(starts)] *)
Definition sorted (starts : gset Z) : list Z :=
  merge_sort Z.le (elements starts).

(** The f-string of a period. *)
Definition format_period (date_key : str) (cur_start end_min hours : Z) : str :=
  let st_h := cur_start `div` 60 in
  let st_m := cur_start `mod` 60 in
  let en_h := end_min `div` 60 in
  let en_m := end_min `mod` 60 in
  date_key ++ py " | 连续空余 " ++ format_02d st_h ++ py ":" ++ format_02d st_m
    ++ py "-" ++ format_02d en_h ++ py ":" ++ format_02d en_m
    ++ py " (" ++ format_d hours ++ py "小时)".

(** Closing a run: it is appended when it is long enough. *)
Definition emit (cfg : config) (date_key : str) (cur_start cur_prev cur_len : Z)
    (result : list str) : list str :=
  if cur_len >=? LEAST_TIME_LENGTH cfg
  then result ++ [format_period date_key cur_start (cur_prev + 60) cur_len]
  else result.

(** The loop over [seq[1:]] and the flush after it. *)
Fixpoint scan_runs (cfg : config) (date_key : str)
    (cur_start cur_prev cur_len : Z) (rest : list Z) (result : list str)
    : list str :=
  match rest with
  | [] => emit cfg date_key cur_start cur_prev cur_len result
  | s :: rest' =>
    if s =? cur_prev + 60
    then scan_runs cfg date_key cur_start s (cur_len + 1) rest' result
    else scan_runs cfg date_key s s 1 rest'
           (emit cfg date_key cur_start cur_prev cur_len result)
  end.

(** The body of the loop over [pools.items()]. *)
Definition merge_date (cfg : config) (result : list str)
    (item : str * gset Z) : list str :=
  let '(date_key, starts) := item in
  match sorted starts with
  | [] => result
  | s0 :: rest => scan_runs cfg date_key s0 s0 1 rest result
  end.

Definition build_continuous_periods (cfg : config) (lines : list str)
    (include_morning : bool) : list str :=
  let pools := fold_left (collect_line include_morning) lines [] in
  fold_left (merge_date cfg) pools [].

(** ** The notification step of [main] *)

(** The non-blank stripped lines of the message. *)
Definition message_lines (message : str) : list str :=
  filter (fun ln => ln <> []) (map strip (splitlines message)).

Definition filtered_lines (include_morning : bool) (lines : list str)
    : list str :=
  List.filter (fun ln => include_morning || negb (contains (py "上午") ln)) lines.

(** The value of [merged] in [main]: what is handed to the memory. *)
Definition main_merged (cfg : config) (include_morning : bool)
    (message : str) : list str :=
  let lines := message_lines message in
  let filtered := filtered_lines include_morning lines in
  if LEAST_TIME_LENGTH cfg >=? 2
  then build_continuous_periods cfg filtered include_morning
  else filtered.

(** The lines [main] sends ([[]] when it sends nothing) and the memory
    file it leaves, for an available report.  The [except] around the call
    of the memory is for an exception of that call, and a memory of entries
    as above raises none. *)
Definition main_notify (cfg : config) (include_morning : bool) (today : str)
    (file : memory_file) (w : write_outcome) (message : str)
    : list str * memory_file :=
  match main_merged cfg include_morning message with
  | [] => ([], file)
  | merged =>
    let '((to_notify, _), file') :=
      filter_messages_by_memory cfg today file w merged None in
    (to_notify, file')
  end.

(** ** Vocabulary of the properties *)

(** The signatures a call presents: the stripped candidates that are not
    blank, in the order of the call. *)
Definition signatures (messages : list str) : list str :=
  filter (fun s => s <> []) (map strip messages).

(** How often [s] occurs in [l]. *)
Definition occ (s : str) (l : list str) : nat :=
  length (filter (fun x => x = s) l).

(** The count stored for [s] for the day [today]: that of an entry seen
    [today], and 0 otherwise. *)
Definition stored_count (today : str) (mem : gmap str entry) (s : str) : Z :=
  match mem !! s with
  | Some e => if seen_today today e then default 0 (count e) else 0
  | None => 0
  end.

(** How many of [k] further sightings of a signature whose stored count is
    [c] stay within the threshold [t]. *)
Definition allowance (t : Z) (c : Z) (k : nat) : nat :=
  Z.to_nat (Z.max 0 (Z.min t (c + Z.of_nat k) - c)).

(** The memory file cannot be read as a dict. *)
Definition unreadable (f : memory_file) : Prop :=
  match f with FileDict _ => False | _ => True end.

(** The threshold a call uses. *)
Definition threshold_of (cfg : config) (threshold : option Z) : Z :=
  default (MEMORY_THRESHOLD cfg) threshold.

(** The parsed entries of the lines: the [(date_key, start_min)] of every
    line the first loop does not skip. *)
Definition entries_of (include_morning : bool) (lines : list str)
    : list (str * Z) :=
  omap (parse_line include_morning) lines.

Definition collect (pools : list (str * gset Z)) (e : str * Z)
    : list (str * gset Z) :=
  pools_add e.1 e.2 pools.

(** The distinct start minutes the entries give for a date. *)
Definition starts_of (date_key : str) (entries : list (str * Z)) : gset Z :=
  list_to_set ((filter (fun e => e.1 = date_key) entries).*2).

(** [n] hourly starts from [a]: [a], [a + 60], ... *)
Fixpoint hourly_run (a : Z) (n : nat) : list Z :=
  match n with
  | O => []
  | S n' => a :: hourly_run (a + 60) n'
  end.

(** The periods of one date. *)
Definition periods_of (cfg : config) (item : str * gset Z) : list str :=
  merge_date cfg [] item.

(** The text of the first pattern of [rs] that matches at [pos]. *)
Fixpoint first_match_at (rs : list re) (pos : nat) (s : str) : option str :=
  match rs with
  | [] => None
  | r :: rs' =>
    orelse (option_map m_text (match_at r pos s)) (first_match_at rs' pos s)
  end.

(** The text of the match at the leftmost position where one of [rs]
    matches, the earlier pattern of [rs] being preferred there. *)
Fixpoint leftmost (rs : list re) (pos : nat) (s : str) : option str :=
  orelse (first_match_at rs pos s)
    match s with
    | _ :: s' => leftmost rs (S pos) s'
    | [] => None
    end.

(** The date key by position first: the leftmost match of the three date
    patterns in the stripped label, else its first token. *)
Definition date_key_leftmost (label : str) : str :=
  let label := strip label in
  match label with
  | [] => []
  | _ =>
    match leftmost [full_date_re; month_day_re; cn_month_day_re] 0 label with
    | Some d => d
    | None => hd [] (split label)
    end
  end.

(** The date key by pattern first, as a fixed priority over the patterns
    reads: a full date anywhere in the label, else a month-day token
    anywhere, else a localized month-day token anywhere, else the first
    token. *)
Definition date_key_by_priority (label : str) : str :=
  let label := strip label in
  match search full_date_re label with
  | Some m => m_text m
  | None =>
    match search month_day_re label with
    | Some m => m_text m
    | None =>
      match search cn_month_day_re label with
      | Some m => m_text m
      | None => hd [] (split label)
      end
    end
  end.

(** ** Further functions of the script *)

(** [sep.join(l)] *)
Fixpoint join (sep : str) (l : list str) : str :=
  match l with
  | [] => []
  | [x] => x
  | x :: l' => x ++ sep ++ join sep l'
  end.

(** [process_report_data]; [include_morning] is the value of
    INCLUDE_MORNING.  A text report gives its (filtered) message, any other
    report is returned as it is. *)
Definition process_report_data (include_morning : bool)
    (report_data : gmap str str) (report_type : str)
    : str + gmap str str :=
  if decide (report_type = py "text") then
    let content := default [] (report_data !! py "message") in
    if negb include_morning then
      inl (join (py "
") (List.filter (fun line => negb (contains (py "上午") line))
            (split_on 10%N content)))
    else inl content
  else inr report_data.

(** The end of [check_dates_availability]: the report of the slot lines
    found. *)
Definition availability_report (messages : list str) : bool * str :=
  match messages with
  | [] => (false, py "所检查的日期内暂无名额")
  | _ => (true, join (py "
") messages)
  end.

(** Consecutive calls of [filter_messages_by_memory] on one day, each
    writing its memory: the [to_notify] of every call and the memory file
    left by the last one. *)
Fixpoint run_calls (cfg : config) (today : str) (threshold : option Z)
    (file : memory_file) (calls : list (list str))
    : list (list str) * memory_file :=
  match calls with
  | [] => ([], file)
  | messages :: calls' =>
    let r := filter_messages_by_memory cfg today file WriteOk messages
               threshold in
    let rest := run_calls cfg today threshold r.2 calls' in
    (r.1.1 :: rest.1, rest.2)
  end.

(** [a], [a + 60], ... are [n] starts of [U], and neither the hour before
    nor the hour after them is one: a maximal hourly run of [U]. *)
Definition max_run (U : Z -> Prop) (a n : Z) : Prop :=
  1 <= n /\ (forall i, 0 <= i < n -> U (a + 60 * i))
  /\ ~ U (a - 60) /\ ~ U (a + 60 * n).

(** The words a pattern matches, with the groups a match of the word
    closes, the last one first ([^] is not tied to a position here). *)
Inductive matches : re -> str -> captures -> Prop :=
| matches_One cl c :
    class_matches cl c = true -> matches (One cl) [c] []
| matches_Rep cl greedy lo hi w :
    Forall (fun c => class_matches cl c = true) w ->
    (lo <= length w)%nat ->
    (forall h, hi = Some h -> (length w <= h)%nat) ->
    matches (Rep cl greedy lo hi) w []
| matches_Seq a b w1 w2 g1 g2 :
    matches a w1 g1 -> matches b w2 g2 ->
    matches (Seq a b) (w1 ++ w2) (g2 ++ g1)
| matches_Alt_l a b w g : matches a w g -> matches (Alt a b) w g
| matches_Alt_r a b w g : matches b w g -> matches (Alt a b) w g
| matches_Group name a w g :
    matches a w g -> matches (Group name a) w ((name, w) :: g)
| matches_Bol : matches Bol [] [].

(** ** Fixtures *)

Definition cfg2 : config := {| LEAST_TIME_LENGTH := 2; MEMORY_THRESHOLD := 2 |}.
Definition cfg1 : config := {| LEAST_TIME_LENGTH := 1; MEMORY_THRESHOLD := 2 |}.

Definition day0 : str := py "2025-12-01".
Definition day1 : str := py "2025-12-02".
Definition sigA : str := py "12-02 | 连续空余 08:00-10:00 (2小时)".
Definition sigB : str := py "12-03 | 连续空余 19:00-21:00 (2小时)".

(** A memory file of [day0] in which [sigA] was seen five times. *)
Definition mem_day0 : gmap str entry :=
  {[ sigA := {| count := Some 5; last_seen := Some day0 |} ]}.

(** A memory file of [day1] in which [sigA] was seen once. *)
Definition mem_day1 : gmap str entry :=
  {[ sigA := {| count := Some 1; last_seen := Some day1 |} ]}.

Definition lineA : str := py "12-02 周二 | A (08:00-09:00)".
Definition lineB : str := py "12-02 周二 | B (09:00-10:00)".
Definition lineC : str := py "12-02 周二 | C (11:00-12:00)".
Definition lineD : str := py "12-03 周三 上午 | A (9：00-10：00)".

(** * Properties *)

(** ** Schedule policy *)

(** C6, as the claim states it, fails: at hour 0 the count is 3. *)
Lemma days_count_hour0_not_4 :
  ~ (get_check_days_count 17 = 3 /\ get_check_days_count 18 = 4
     /\ get_check_days_count 23 = 4 /\ get_check_days_count 0 = 4).
Proof. intros (_ & _ & _ & H). vm_compute in H. discriminate. Qed.

Lemma get_check_days_count_spec hour :
  get_check_days_count hour = if decide (hour < 18) then 3 else 4.
Proof.
  unfold get_check_days_count.
  destruct (Z.ltb_spec hour 18); case_decide; lia || reflexivity.
Qed.

(** C6 (amended): [get_check_days_count] returns 3 at hour 17, 4 at hour 18,
    4 at hour 23 and 3 at hour 0: every hour below 18 gives 3, midnight
    included. *)
Theorem days_count_boundary :
  get_check_days_count 17 = 3 /\ get_check_days_count 18 = 4
  /\ get_check_days_count 23 = 4 /\ get_check_days_count 0 = 3.
Proof. rewrite !get_check_days_count_spec. repeat split. Qed.

(** ** Notification memory *)

Section MemoryLoop.
Variable today : str.
Variable t : Z.

Lemma allowance_step c k :
  allowance t c (S k)
  = Nat.add (if c + 1 <=? t then 1%nat else 0%nat) (allowance t (c + 1) k).
Proof. unfold allowance. destruct (Z.leb_spec (c + 1) t); lia. Qed.

Lemma occ_nil s : occ s [] = 0%nat.
Proof. reflexivity. Qed.

Lemma occ_cons s x l :
  occ s (x :: l) = ((if decide (x = s) then 1 else 0) + occ s l)%nat.
Proof. unfold occ. rewrite filter_cons. by case_decide. Qed.

Lemma occ_app s l1 l2 : occ s (l1 ++ l2) = (occ s l1 + occ s l2)%nat.
Proof. unfold occ. by rewrite filter_app, length_app. Qed.

Lemma occ_elem_of s l : (0 < occ s l)%nat <-> s ∈ l.
Proof.
  induction l as [|x l IH]; rewrite ?occ_cons.
  - rewrite occ_nil. split; [lia | by intros ?%elem_of_nil].
  - rewrite elem_of_cons. case_decide as Hx.
    + subst. split; [by left | lia].
    + rewrite Nat.add_0_l, IH. split; [by right|]. by intros [->|].
Qed.

(** The loop skips blank candidates and works on the signatures. *)
Lemma fold_classify_signatures messages st :
  fold_left (classify_one today t) messages st
  = fold_left (classify_slot today t) (signatures messages) st.
Proof.
  revert st. induction messages as [|m ms IH]; intros st; [done|].
  unfold signatures. simpl. rewrite filter_cons. rewrite IH.
  unfold classify_one. destruct (strip m) eqn:E.
  - by rewrite decide_False by (intros H; by apply H).
  - by rewrite decide_True by done.
Qed.

(** The count [classify_slot] stores. *)
Lemma classify_slot_eq upd tn x :
  classify_slot today t (upd, tn) x
  = (<[x := {| count := Some (stored_count today upd x + 1);
               last_seen := Some today |}]> upd,
     if stored_count today upd x + 1 <=? t then tn ++ [x] else tn).
Proof.
  unfold classify_slot, stored_count.
  destruct (upd !! x) as [e|]; [destruct (seen_today today e)|];
    cbv zeta; rewrite ?Z.add_0_l; by destruct (_ <=? _).
Qed.

Lemma stored_count_insert upd x c s :
  stored_count today
    (<[x := {| count := Some c; last_seen := Some today |}]> upd) s
  = if decide (x = s) then c else stored_count today upd s.
Proof.
  unfold stored_count. rewrite lookup_insert. case_decide; [|done].
  unfold seen_today. simpl. by rewrite bool_decide_true.
Qed.

(** The entry of a signature after the loop. *)
Lemma classify_lookup l upd tn s :
  (fold_left (classify_slot today t) l (upd, tn)).1 !! s
  = match occ s l with
    | O => upd !! s
    | S _ => Some {| count := Some (stored_count today upd s + Z.of_nat (occ s l));
                     last_seen := Some today |}
    end.
Proof.
  revert upd tn. induction l as [|x l IH]; intros upd tn; [done|].
  cbn [fold_left]. rewrite classify_slot_eq, IH, occ_cons, stored_count_insert.
  case_decide as Hx.
  - subst x. rewrite lookup_insert_eq. simpl.
    destruct (occ s l); simpl; do 2 f_equal; apply (f_equal Some); lia.
  - rewrite lookup_insert_ne by done. simpl. done.
Qed.

(** The occurrences of a signature the loop adds to [to_notify]. *)
Lemma classify_notified l upd tn s :
  occ s (fold_left (classify_slot today t) l (upd, tn)).2
  = (occ s tn + allowance t (stored_count today upd s) (occ s l))%nat.
Proof.
  revert upd tn. induction l as [|x l IH]; intros upd tn.
  - simpl. rewrite occ_nil. unfold allowance. lia.
  - cbn [fold_left].
    rewrite classify_slot_eq, IH, occ_cons, stored_count_insert.
    case_decide as Hx.
    + subst x. simpl. rewrite allowance_step.
      destruct (Z.leb_spec (stored_count today upd s + 1) t).
      * rewrite occ_app, occ_cons, occ_nil, decide_True by done. lia.
      * lia.
    + simpl. case_match; [|done].
      rewrite occ_app, occ_cons, occ_nil, decide_False by done. lia.
Qed.

(** [to_notify] grows by a subsequence of the signatures. *)
Lemma classify_sublist l upd tn :
  exists l', (fold_left (classify_slot today t) l (upd, tn)).2 = tn ++ l'
             /\ sublist l' l.
Proof.
  revert upd tn. induction l as [|x l IH]; intros upd tn.
  - exists []. by rewrite app_nil_r.
  - cbn [fold_left]. rewrite classify_slot_eq. case_match.
    + destruct (IH (<[x := {| count := Some (stored_count today upd x + 1);
               last_seen := Some today |}]> upd) (tn ++ [x])) as (l' & -> & Hl').
      exists (x :: l'). rewrite <- app_assoc. split; [done|].
      by apply sublist_skip.
    + destruct (IH (<[x := {| count := Some (stored_count today upd x + 1);
               last_seen := Some today |}]> upd) tn) as (l' & -> & Hl').
      exists l'. split; [done|]. by apply sublist_cons.
Qed.

(** When every signature stays within the threshold, all of them are
    notified. *)
Lemma classify_all_notified l upd tn :
  (forall s, s ∈ l -> stored_count today upd s + Z.of_nat (occ s l) <= t) ->
  (fold_left (classify_slot today t) l (upd, tn)).2 = tn ++ l.
Proof.
  revert upd tn. induction l as [|x l IH]; intros upd tn Hle.
  - by rewrite app_nil_r.
  - cbn [fold_left]. rewrite classify_slot_eq.
    pose proof (Hle x (list_elem_of_here _ _)) as Hx.
    rewrite occ_cons, decide_True in Hx by done.
    destruct (Z.leb_spec (stored_count today upd x + 1) t); [|lia].
    rewrite IH, <- app_assoc; [done|].
    intros s Hs. rewrite stored_count_insert.
    pose proof (Hle s (list_elem_of_further _ _ _ Hs)) as Hs'.
    rewrite occ_cons in Hs'. case_decide; subst; lia.
Qed.

(** Pruning keeps exactly the entries seen today. *)
Lemma lookup_fold_delete (ks : list str) (m : gmap str entry) k :
  fold_left (fun m k => delete k m) ks m !! k
  = if decide (k ∈ ks) then None else m !! k.
Proof.
  revert m. induction ks as [|k' ks IH]; intros m; cbn [fold_left].
  - case_decide as Hk; [by apply elem_of_nil in Hk | done].
  - rewrite IH, lookup_delete.
    destruct (decide (k ∈ ks)) as [Hin|Hin],
      (decide (k ∈ k' :: ks)) as [Hin'|Hin'],
      (decide (k' = k)) as [Hk|Hk]; try done; exfalso;
      rewrite elem_of_cons in Hin'; intuition congruence.
Qed.

Lemma elem_of_keys_to_delete upd k :
  k ∈ keys_to_delete today upd
  <-> exists e, upd !! k = Some e /\ seen_today today e = false.
Proof.
  unfold keys_to_delete. rewrite list_elem_of_bind. split.
  - intros ([k' e] & Hk & Hin). simpl in Hk.
    apply elem_of_map_to_list in Hin.
    destruct (seen_today today e) eqn:E; [by apply elem_of_nil in Hk|].
    apply list_elem_of_singleton in Hk. subst. eauto.
  - intros (e & He & Hs). exists (k, e). simpl. rewrite Hs.
    split; [apply list_elem_of_singleton; done | by apply elem_of_map_to_list].
Qed.

Lemma prune_lookup upd k :
  prune today upd !! k
  = match upd !! k with
    | Some e => if seen_today today e then Some e else None
    | None => None
    end.
Proof.
  unfold prune. rewrite lookup_fold_delete. case_decide as Hk.
  - apply elem_of_keys_to_delete in Hk as (e & -> & ->). done.
  - destruct (upd !! k) as [e|] eqn:E; [|done].
    destruct (seen_today today e) eqn:Es; [done|].
    exfalso. apply Hk, elem_of_keys_to_delete. eauto.
Qed.

End MemoryLoop.

(** What a call computes, in terms of the loop over the signatures. *)
Lemma filter_messages_by_memory_eq cfg today file w messages threshold :
  filter_messages_by_memory cfg today file w messages threshold
  = let st := fold_left (classify_slot today (threshold_of cfg threshold))
                (signatures messages) (load_memory file, []) in
    ((st.2, prune today st.1), save_memory (prune today st.1) w).
Proof.
  unfold filter_messages_by_memory, threshold_of.
  rewrite fold_classify_signatures. by destruct (fold_left _ _ _).
Qed.

Lemma filter_to_notify cfg today file w messages threshold :
  (filter_messages_by_memory cfg today file w messages threshold).1.1
  = (fold_left (classify_slot today (threshold_of cfg threshold))
       (signatures messages) (load_memory file, [])).2.
Proof. by rewrite filter_messages_by_memory_eq. Qed.

Lemma filter_updated cfg today file w messages threshold :
  (filter_messages_by_memory cfg today file w messages threshold).1.2
  = prune today
      (fold_left (classify_slot today (threshold_of cfg threshold))
         (signatures messages) (load_memory file, [])).1.
Proof. by rewrite filter_messages_by_memory_eq. Qed.

Lemma filter_file cfg today file w messages threshold :
  (filter_messages_by_memory cfg today file w messages threshold).2
  = save_memory
      (filter_messages_by_memory cfg today file w messages threshold).1.2 w.
Proof. by rewrite filter_messages_by_memory_eq. Qed.

(** The entry of a presented signature after a call. *)
Lemma filter_updated_presented cfg today file w messages threshold s :
  (0 < occ s (signatures messages))%nat ->
  (filter_messages_by_memory cfg today file w messages threshold).1.2 !! s
  = Some {| count := Some (stored_count today (load_memory file) s
                           + Z.of_nat (occ s (signatures messages)));
            last_seen := Some today |}.
Proof.
  intros Hk. rewrite filter_updated, prune_lookup, classify_lookup.
  destruct (occ s (signatures messages)); [lia|].
  unfold seen_today. simpl. by rewrite bool_decide_true.
Qed.

(** The occurrences of a signature in [to_notify]. *)
Lemma filter_to_notify_occ cfg today file w messages threshold s :
  occ s (filter_messages_by_memory cfg today file w messages threshold).1.1
  = allowance (threshold_of cfg threshold)
      (stored_count today (load_memory file) s) (occ s (signatures messages)).
Proof. by rewrite filter_to_notify, classify_notified, occ_nil. Qed.

Lemma filter_to_notify_sublist cfg today file w messages threshold :
  sublist (filter_messages_by_memory cfg today file w messages threshold).1.1
          (signatures messages).
Proof.
  rewrite filter_to_notify.
  by destruct (classify_sublist today (threshold_of cfg threshold)
                 (signatures messages) (load_memory file) [])
    as (l' & -> & Hl').
Qed.

Lemma stored_count_not_today (today : str) (mem : gmap str entry) (s : str) :
  (forall e, mem !! s = Some e -> last_seen e <> Some today) ->
  stored_count today mem s = 0.
Proof.
  intros H. unfold stored_count. destruct (mem !! s) as [e|] eqn:E; [|done].
  unfold seen_today. by rewrite bool_decide_false by by apply H.
Qed.

Lemma stored_count_today (today : str) (mem : gmap str entry) (s : str) c :
  mem !! s = Some {| count := Some c; last_seen := Some today |} ->
  stored_count today mem s = c.
Proof.
  intros H. unfold stored_count, seen_today. rewrite H. simpl.
  by rewrite bool_decide_true.
Qed.

(** The stored count after a call that wrote its memory and presented the
    signature. *)
Lemma stored_count_after cfg today file messages threshold s :
  (0 < occ s (signatures messages))%nat ->
  stored_count today
    (load_memory
       (filter_messages_by_memory cfg today file WriteOk messages threshold).2) s
  = stored_count today (load_memory file) s
    + Z.of_nat (occ s (signatures messages)).
Proof.
  intros Hk. rewrite filter_file. simpl.
  by apply stored_count_today, filter_updated_presented.
Qed.

(** C2: with threshold 2, a signature not yet seen today and presented once
    in each of three consecutive calls of the same day, each of which saves
    its memory, is in [to_notify] of the first and of the second call and
    not in that of the third. *)
Theorem suppression_threshold cfg today file0 ms1 ms2 ms3 threshold s :
  threshold_of cfg threshold = 2 ->
  (forall e, load_memory file0 !! s = Some e -> last_seen e <> Some today) ->
  occ s (signatures ms1) = 1%nat ->
  occ s (signatures ms2) = 1%nat ->
  occ s (signatures ms3) = 1%nat ->
  let r1 := filter_messages_by_memory cfg today file0 WriteOk ms1 threshold in
  let r2 := filter_messages_by_memory cfg today r1.2 WriteOk ms2 threshold in
  let r3 := filter_messages_by_memory cfg today r2.2 WriteOk ms3 threshold in
  s ∈ r1.1.1 /\ s ∈ r2.1.1 /\ s ∉ r3.1.1.
Proof.
  intros Ht Hnew H1 H2 H3 r1 r2 r3.
  assert (C1 : stored_count today (load_memory r1.2) s = 1).
  { unfold r1. rewrite stored_count_after, H1 by lia.
    rewrite stored_count_not_today by done. done. }
  assert (C2 : stored_count today (load_memory r2.2) s = 2).
  { unfold r2. rewrite stored_count_after, H2, C1 by lia. done. }
  rewrite <- !occ_elem_of. unfold r3, r2 at 1, r1 at 1.
  rewrite !filter_to_notify_occ, Ht, H1, H2, H3, C1, C2.
  rewrite stored_count_not_today by done.
  unfold allowance. simpl. lia.
Qed.

Lemma suppression_threshold_witness :
  let r1 := filter_messages_by_memory cfg2 day1 (FileDict mem_day0) WriteOk
              [sigB; sigA] None in
  let r2 := filter_messages_by_memory cfg2 day1 r1.2 WriteOk [sigA] None in
  let r3 := filter_messages_by_memory cfg2 day1 r2.2 WriteOk [sigA; sigB] None in
  sigA ∈ r1.1.1 /\ sigA ∈ r2.1.1 /\ sigA ∉ r3.1.1.
Proof.
  apply (suppression_threshold cfg2 day1 (FileDict mem_day0)
           [sigB; sigA] [sigA] [sigA; sigB] None sigA).
  - reflexivity.
  - intros e He. simpl in He. unfold mem_day0 in He.
    rewrite lookup_singleton_eq in He. injection He as <-. simpl.
    intros H. vm_compute in H. discriminate.
  - vm_compute. reflexivity.
  - vm_compute. reflexivity.
  - vm_compute. reflexivity.
Defined.

(** C3: a signature whose stored entry was last seen on a day [D] other
    than the day of the call, whatever its count, and that the call
    presents, is counted anew: its count becomes the number of its
    presentations in the call (1 when it is presented once), its
    [last_seen] the day of the call, and it is in [to_notify] when the
    threshold is at least 1. *)
Theorem daily_reset cfg today mem w messages threshold s e D :
  mem !! s = Some e ->
  last_seen e = Some D ->
  D <> today ->
  1 <= threshold_of cfg threshold ->
  (0 < occ s (signatures messages))%nat ->
  let r := filter_messages_by_memory cfg today (FileDict mem) w messages
             threshold in
  r.1.2 !! s = Some {| count := Some (Z.of_nat (occ s (signatures messages)));
                       last_seen := Some today |}
  /\ (occ s (signatures messages) = 1%nat ->
      r.1.2 !! s = Some {| count := Some 1; last_seen := Some today |})
  /\ s ∈ r.1.1.
Proof.
  intros He HD Hne Ht Hk r.
  assert (C : stored_count today (load_memory (FileDict mem)) s = 0).
  { apply stored_count_not_today. simpl. intros e' He'.
    rewrite He in He'. injection He' as <-. rewrite HD. congruence. }
  assert (Hcount : r.1.2 !! s
    = Some {| count := Some (Z.of_nat (occ s (signatures messages)));
              last_seen := Some today |}).
  { unfold r. rewrite filter_updated_presented, C by done. done. }
  split; [done|]. split.
  - intros H1. by rewrite Hcount, H1.
  - apply occ_elem_of. unfold r.
    rewrite filter_to_notify_occ, C. unfold allowance. lia.
Qed.

Lemma daily_reset_witness :
  let r := filter_messages_by_memory cfg2 day1 (FileDict mem_day0) WriteOk
             [sigB; sigA] None in
  r.1.2 !! sigA = Some {| count := Some 1; last_seen := Some day1 |}
  /\ sigA ∈ r.1.1.
Proof.
  pose proof (daily_reset cfg2 day1 mem_day0 WriteOk [sigB; sigA] None sigA
           {| count := Some 5; last_seen := Some day0 |} day0) as H.
  destruct H as (_ & H1 & Hin).
  - apply lookup_singleton_eq.
  - reflexivity.
  - intros H. vm_compute in H. discriminate.
  - simpl. lia.
  - vm_compute. lia.
  - split; [apply H1; vm_compute; reflexivity | exact Hin].
Defined.

(** C4: whatever the memory file, the candidates and the outcome of the
    write, every entry of the mapping a call returns has [last_seen] the day
    of the call; a successful write leaves exactly this mapping in the
    file. *)
Theorem pruning cfg today file w messages threshold :
  map_Forall (fun _ e => last_seen e = Some today)
    (filter_messages_by_memory cfg today file w messages threshold).1.2
  /\ (filter_messages_by_memory cfg today file WriteOk messages threshold).2
     = FileDict
         (filter_messages_by_memory cfg today file WriteOk messages threshold).1.2.
Proof.
  split; [|by rewrite filter_file].
  intros k e. rewrite filter_updated, prune_lookup.
  destruct (_ !! k) as [e'|]; [|done].
  destruct (seen_today today e') eqn:E; [|done].
  intros [= <-]. unfold seen_today in E. by apply bool_decide_eq_true in E.
Qed.

(** C5, as the claim states it, fails: with no memory file, the third
    sighting of a signature within one call is suppressed at threshold 2,
    and at threshold 0 nothing is notified. *)
Lemma fail_open_not_all_notified :
  unreadable FileMissing
  /\ (filter_messages_by_memory cfg2 day1 FileMissing WriteOk
        [sigA; sigA; sigA] None).1.1 = [sigA; sigA]
  /\ (filter_messages_by_memory cfg2 day1 FileMissing WriteOk
        [sigA; sigA; sigA] None).1.2 !! sigA
     = Some {| count := Some 3; last_seen := Some day1 |}
  /\ (filter_messages_by_memory cfg2 day1 FileMissing WriteOk
        [sigA] (Some 0)).1.1 = [].
Proof.
  split; [exact I|]. split; [vm_compute; reflexivity|].
  split; [|vm_compute; reflexivity].
  rewrite filter_updated_presented by (vm_compute; lia).
  vm_compute. reflexivity.
Qed.

Lemma load_memory_unreadable file : unreadable file -> load_memory file = ∅.
Proof. by destruct file. Qed.

(** C5 (amended): when the memory file cannot be read as a dict, a call
    returns what it returns for an empty stored mapping: every presented
    signature is counted from zero, each occurrence of a signature that
    occurs at most [threshold] times in the call is in [to_notify], and
    [to_notify] is the list of all signatures when none of them occurs more
    often than that.  The outcome of the write changes neither [to_notify]
    nor the returned mapping, whatever the memory file. *)
Theorem fail_open cfg today file w messages threshold :
  unreadable file ->
  let r := filter_messages_by_memory cfg today file w messages threshold in
  r.1 = (filter_messages_by_memory cfg today (FileDict ∅) WriteOk messages
           threshold).1
  /\ (forall s, s ∈ signatures messages ->
        r.1.2 !! s = Some {| count := Some (Z.of_nat (occ s (signatures messages)));
                             last_seen := Some today |})
  /\ (forall s, Z.of_nat (occ s (signatures messages)) <= threshold_of cfg threshold ->
        occ s r.1.1 = occ s (signatures messages))
  /\ ((forall s, Z.of_nat (occ s (signatures messages)) <= threshold_of cfg threshold) ->
        r.1.1 = signatures messages)
  /\ (forall file' w',
        (filter_messages_by_memory cfg today file' w' messages threshold).1
        = (filter_messages_by_memory cfg today file' WriteOk messages threshold).1).
Proof.
  intros Hf r. pose proof (load_memory_unreadable _ Hf) as Hmem.
  assert (C : forall s, stored_count today (load_memory file) s = 0).
  { intros s. rewrite Hmem. unfold stored_count. by rewrite lookup_empty. }
  split; [|split; [|split; [|split]]].
  - unfold r. rewrite !filter_messages_by_memory_eq. simpl. by rewrite Hmem.
  - intros s Hs%occ_elem_of. unfold r.
    rewrite filter_updated_presented, C by done. done.
  - intros s Hs. unfold r. rewrite filter_to_notify_occ, C.
    unfold allowance. lia.
  - intros Hall. unfold r. rewrite filter_to_notify.
    rewrite classify_all_notified; [done|].
    intros s _. rewrite C. specialize (Hall s). lia.
  - intros file' w'. by rewrite !filter_messages_by_memory_eq.
Qed.

Lemma fail_open_witness :
  (filter_messages_by_memory cfg2 day1 FileUnreadable (WriteFails FileUnreadable)
     [sigA; sigB] None).1.1 = [sigA; sigB].
Proof.
  refine (proj1 (proj2 (proj2 (proj2
    (fail_open cfg2 day1 FileUnreadable (WriteFails FileUnreadable)
       [sigA; sigB] None I)))) _).
  intros s. change (signatures [sigA; sigB]) with [sigA; sigB].
  rewrite !occ_cons, occ_nil. change (threshold_of cfg2 None) with 2.
  repeat case_decide; lia.
Defined.

(** C10: a signature whose stored count of the day is [c] and that occurs
    [k] times among the candidates of one call with threshold [t] has stored
    count [c + k] afterwards, exactly [max 0 (min t (c + k) - c)] of its
    occurrences are in [to_notify], and [to_notify] is a subsequence of the
    stripped candidates. *)
Theorem duplicates_consume_allowance cfg today file w messages threshold s :
  let c := stored_count today (load_memory file) s in
  let k := occ s (signatures messages) in
  let t := threshold_of cfg threshold in
  let r := filter_messages_by_memory cfg today file w messages threshold in
  (0 < k)%nat ->
  r.1.2 !! s = Some {| count := Some (c + Z.of_nat k); last_seen := Some today |}
  /\ Z.of_nat (occ s r.1.1) = Z.max 0 (Z.min t (c + Z.of_nat k) - c)
  /\ sublist r.1.1 (signatures messages).
Proof.
  intros c k t r Hk. split; [|split].
  - by apply filter_updated_presented.
  - unfold r. rewrite filter_to_notify_occ. unfold allowance. fold c k t. lia.
  - apply filter_to_notify_sublist.
Qed.

Lemma duplicates_consume_allowance_witness :
  let r := filter_messages_by_memory cfg2 day1 (FileDict mem_day1) WriteOk
             [sigA; sigB; sigA; sigA] None in
  r.1.2 !! sigA = Some {| count := Some 4; last_seen := Some day1 |}
  /\ Z.of_nat (occ sigA r.1.1) = 1
  /\ sublist r.1.1 [sigA; sigB; sigA; sigA].
Proof.
  apply (duplicates_consume_allowance cfg2 day1 (FileDict mem_day1) WriteOk
           [sigA; sigB; sigA; sigA] None sigA).
  vm_compute. lia.
Defined.

(** ** Period merger *)

Section Merger.
Variable cfg : config.

(** *** The pools *)

Lemma fold_collect_entries include_morning lines pools :
  fold_left (collect_line include_morning) lines pools
  = fold_left collect (entries_of include_morning lines) pools.
Proof.
  revert pools. induction lines as [|ln lines IH]; intros pools; [done|].
  cbn [fold_left]. rewrite IH. unfold entries_of, collect_line. simpl.
  destruct (parse_line include_morning ln) as [[k v]|]; reflexivity.
Qed.

Lemma pools_add_map k v (pools : list (str * gset Z)) :
  (list_to_map (pools_add k v pools) : gmap str (gset Z))
  = <[k := {[v]} ∪ default ∅ ((list_to_map pools : gmap str (gset Z)) !! k)]>
      (list_to_map pools).
Proof.
  induction pools as [|[k' starts] pools IH].
  { simpl. rewrite lookup_empty. simpl. by rewrite (right_id_L ∅ (∪)). }
  cbn [pools_add]. case_decide as Hk.
  - subst k'. rewrite !list_to_map_cons, lookup_insert_eq. simpl.
    by rewrite insert_insert_eq.
  - rewrite !list_to_map_cons, IH, lookup_insert_ne by done.
    by apply insert_insert_ne.
Qed.

Lemma pools_add_keys k v (pools : list (str * gset Z)) k' :
  k' ∈ (pools_add k v pools).*1 <-> k' = k \/ k' ∈ pools.*1.
Proof.
  induction pools as [|[k0 starts] pools IH]; simpl.
  - rewrite list_elem_of_singleton, elem_of_nil. tauto.
  - case_decide as Hk; simpl; rewrite !elem_of_cons, ?IH; [subst|]; tauto.
Qed.

Lemma pools_add_NoDup k v (pools : list (str * gset Z)) :
  NoDup pools.*1 -> NoDup (pools_add k v pools).*1.
Proof.
  induction pools as [|[k0 starts] pools IH]; simpl.
  - intros _. apply NoDup_singleton.
  - rewrite NoDup_cons. intros [Hk0 Hnd].
    case_decide as Hk; simpl; rewrite NoDup_cons; [done|].
    split; [|by apply IH]. rewrite pools_add_keys. intros [->|]; done.
Qed.

Lemma pools_NoDup entries pools :
  NoDup pools.*1 -> NoDup (fold_left collect entries pools).*1.
Proof.
  revert pools. induction entries as [|e entries IH]; intros pools Hnd; [done|].
  cbn [fold_left]. by apply IH, pools_add_NoDup.
Qed.

Lemma starts_of_snoc k entries e :
  starts_of k (entries ++ [e])
  = starts_of k entries ∪ (if decide (e.1 = k) then {[e.2]} else ∅).
Proof.
  unfold starts_of. rewrite filter_app, fmap_app, list_to_set_app_L.
  f_equal. rewrite filter_cons, filter_nil.
  case_decide; simpl; [apply (right_id_L ∅ (∪)) | done].
Qed.

Lemma elem_of_starts_of k entries z :
  z ∈ starts_of k entries <-> (k, z) ∈ entries.
Proof.
  unfold starts_of. rewrite elem_of_list_to_set, list_elem_of_fmap. split.
  - intros ([k' z'] & -> & [Hk Hin]%list_elem_of_filter). simpl in *. by subst.
  - intros Hin. exists (k, z). split; [done|]. by apply list_elem_of_filter.
Qed.

Lemma starts_of_absent k entries :
  k ∉ entries.*1 -> starts_of k entries = ∅.
Proof.
  intros Hk. apply set_eq. intros z. rewrite elem_of_starts_of. split.
  - intros Hin. exfalso. apply Hk, list_elem_of_fmap. by exists (k, z).
  - by intros ?%not_elem_of_empty.
Qed.

(** The pools as a map: a date has a pool when an entry names it, and the
    pool holds the starts of its entries. *)
Lemma pools_lookup entries k :
  (list_to_map (fold_left collect entries []) : gmap str (gset Z)) !! k
  = if decide (k ∈ entries.*1) then Some (starts_of k entries) else None.
Proof.
  induction entries as [|e entries IH] using rev_ind.
  - case_decide as Hin; [by apply elem_of_nil in Hin|]. apply lookup_empty.
  - rewrite fold_left_app. cbn [fold_left]. unfold collect at 1.
    rewrite pools_add_map, lookup_insert, starts_of_snoc, fmap_app.
    destruct (decide (e.1 = k)) as [He|He]; [subst k|]; rewrite IH.
    + destruct (decide (e.1 ∈ entries.*1)) as [Hin|Hin].
      * rewrite decide_True by (apply elem_of_app; by left).
        simpl. f_equal. apply (comm_L (∪)).
      * rewrite decide_True by (apply elem_of_app; right; by left).
        rewrite starts_of_absent by done.
        simpl. by rewrite (left_id_L ∅ (∪)), (right_id_L ∅ (∪)).
    + rewrite (right_id_L ∅ (∪)).
      destruct (decide (k ∈ entries.*1)) as [Hin|Hin].
      * by rewrite decide_True by (apply elem_of_app; by left).
      * rewrite decide_False; [done|].
        intros [?|Hin']%elem_of_app; [done|].
        apply list_elem_of_singleton in Hin'. done.
Qed.

(** Entries with the same elements give the same pools, up to the order of
    the dates. *)
Lemma pools_same_elements entries entries' :
  (forall e, e ∈ entries <-> e ∈ entries') ->
  fold_left collect entries [] ≡ₚ fold_left collect entries' [].
Proof.
  intros Hsame.
  rewrite <- (map_to_list_to_map (fold_left collect entries []))
    by (apply pools_NoDup, NoDup_nil_2).
  rewrite <- (map_to_list_to_map (fold_left collect entries' []))
    by (apply pools_NoDup, NoDup_nil_2).
  replace (list_to_map (fold_left collect entries' []) : gmap str (gset Z))
    with (list_to_map (fold_left collect entries []) : gmap str (gset Z)); [done|].
  apply map_eq. intros k. rewrite !pools_lookup.
  assert (Hk : k ∈ entries.*1 <-> k ∈ entries'.*1).
  { rewrite !list_elem_of_fmap. split; intros (e & -> & He); exists e;
      (split; [done|]); by apply Hsame. }
  assert (Hs : starts_of k entries = starts_of k entries').
  { apply set_eq. intros z. rewrite !elem_of_starts_of. apply Hsame. }
  rewrite Hs. repeat case_decide; tauto || done.
Qed.

(** *** The runs *)

Lemma emit_app dk cs cp cl result :
  emit cfg dk cs cp cl result = result ++ emit cfg dk cs cp cl [].
Proof. unfold emit. case_match; [done | by rewrite app_nil_r]. Qed.

Lemma scan_runs_app dk cs cp cl rest result :
  scan_runs cfg dk cs cp cl rest result
  = result ++ scan_runs cfg dk cs cp cl rest [].
Proof.
  revert cs cp cl result. induction rest as [|s rest IH]; intros cs cp cl result.
  - apply emit_app.
  - cbn [scan_runs]. case_match; [apply IH|].
    rewrite IH, (IH _ _ _ (emit _ _ _ _ _ [])), emit_app.
    by rewrite app_assoc.
Qed.

Lemma merge_date_app result item :
  merge_date cfg result item = result ++ periods_of cfg item.
Proof.
  unfold periods_of, merge_date. destruct item as [dk starts].
  destruct (sorted starts); [by rewrite app_nil_r | apply scan_runs_app].
Qed.

Lemma fold_merge_date pools result :
  fold_left (merge_date cfg) pools result = result ++ pools ≫= periods_of cfg.
Proof.
  revert result. induction pools as [|item pools IH]; intros result.
  - by rewrite app_nil_r.
  - cbn [fold_left]. rewrite IH, merge_date_app, bind_cons.
    by rewrite app_assoc.
Qed.

(** The result is the periods of the pools, date after date. *)
Lemma build_continuous_periods_eq lines include_morning :
  build_continuous_periods cfg lines include_morning
  = fold_left collect (entries_of include_morning lines) []
      ≫= periods_of cfg.
Proof.
  unfold build_continuous_periods.
  by rewrite fold_merge_date, fold_collect_entries.
Qed.

Lemma elem_of_entries_of include_morning lines e :
  e ∈ entries_of include_morning lines
  <-> exists ln, ln ∈ lines /\ parse_line include_morning ln = Some e.
Proof. unfold entries_of. apply list_elem_of_omap. Qed.

(** Lines with the same elements, in any order and any number of copies,
    give the same periods up to their order. *)
Lemma merge_same_elements lines lines' include_morning :
  (forall ln, ln ∈ lines <-> ln ∈ lines') ->
  build_continuous_periods cfg lines include_morning
  ≡ₚ build_continuous_periods cfg lines' include_morning.
Proof.
  intros Hsame. rewrite !build_continuous_periods_eq.
  apply bind_Permutation.
  apply pools_same_elements. intros e. rewrite !elem_of_entries_of.
  split; intros (ln & Hln & He); exists ln; (split; [|done]); by apply Hsame.
Qed.

(** C7: the periods of a permutation of the lines, duplicate lines
    included, are a permutation of the periods of the lines, so the two
    results are equal as sets of strings. *)
Theorem merge_order_insensitive lines lines' include_morning :
  lines ≡ₚ lines' ->
  build_continuous_periods cfg lines include_morning
    ≡ₚ build_continuous_periods cfg lines' include_morning
  /\ (forall x, x ∈ build_continuous_periods cfg lines include_morning
             <-> x ∈ build_continuous_periods cfg lines' include_morning).
Proof.
  intros Hperm.
  assert (Hout : build_continuous_periods cfg lines include_morning
                 ≡ₚ build_continuous_periods cfg lines' include_morning).
  { apply merge_same_elements. intros ln. by rewrite Hperm. }
  split; [done|]. intros x. by rewrite Hout.
Qed.

(** *** One contiguous run *)

Lemma elem_of_hourly_run a n z :
  z ∈ hourly_run a n
  <-> exists i, 0 <= i < Z.of_nat n /\ z = a + 60 * i.
Proof.
  revert a. induction n as [|n IH]; intros a; simpl.
  - rewrite elem_of_nil. split; [done | intros (i & ? & _); lia].
  - rewrite elem_of_cons, IH. split.
    + intros [->|(i & Hi & ->)]; [exists 0 | exists (i + 1)]; lia.
    + intros (i & Hi & ->). destruct (decide (i = 0)) as [->|]; [left; lia|].
      right. exists (i - 1). lia.
Qed.

Lemma hourly_run_Sorted a n : Sorted Z.le (hourly_run a n).
Proof.
  revert a. induction n as [|n IH]; intros a; simpl; [constructor|].
  constructor; [apply IH|]. destruct n; simpl; constructor. lia.
Qed.

Lemma hourly_run_NoDup a n : NoDup (hourly_run a n).
Proof.
  revert a. induction n as [|n IH]; intros a; simpl; [constructor|].
  constructor; [|apply IH]. rewrite elem_of_hourly_run. intros (i & ? & ?). lia.
Qed.

(** A set that holds exactly an hourly run sorts to it. *)
Lemma sorted_hourly_run (starts : gset Z) a n :
  (forall z, z ∈ starts <-> z ∈ hourly_run a n) ->
  sorted starts = hourly_run a n.
Proof.
  intros Hrun. unfold sorted. apply (Sorted_unique Z.le).
  - apply Sorted_merge_sort. apply _.
  - apply hourly_run_Sorted.
  - rewrite merge_sort_Permutation.
    apply NoDup_Permutation; [apply NoDup_elements | apply hourly_run_NoDup |].
    intros z. by rewrite elem_of_elements.
Qed.

(** Scanning the rest of a run only extends the current run. *)
Lemma scan_runs_hourly dk cs cp cl n result :
  scan_runs cfg dk cs cp cl (hourly_run (cp + 60) n) result
  = emit cfg dk cs (cp + 60 * Z.of_nat n) (cl + Z.of_nat n) result.
Proof.
  revert cp cl. induction n as [|n IH]; intros cp cl.
  - simpl. f_equal; lia.
  - cbn [hourly_run scan_runs]. rewrite Z.eqb_refl, IH. f_equal; lia.
Qed.

Lemma periods_of_hourly_run dk (starts : gset Z) a n :
  (forall z, z ∈ starts <-> z ∈ hourly_run a (S n)) ->
  periods_of cfg (dk, starts)
  = emit cfg dk a (a + 60 * Z.of_nat n) (Z.of_nat (S n)) [].
Proof.
  intros Hrun. unfold periods_of, merge_date.
  rewrite (sorted_hourly_run _ _ _ Hrun). cbn [hourly_run].
  rewrite scan_runs_hourly. f_equal; lia.
Qed.

(** The pools of entries that all name one date. *)
Lemma pools_one_date entries dk :
  entries <> [] ->
  (forall e, e ∈ entries -> e.1 = dk) ->
  fold_left collect entries [] = [(dk, list_to_set entries.*2)].
Proof.
  intros Hne Hdk. apply Permutation_singleton_r.
  rewrite <- map_to_list_singleton.
  rewrite <- (map_to_list_to_map (fold_left collect entries []))
    by (apply pools_NoDup, NoDup_nil_2).
  replace (list_to_map (fold_left collect entries []) : gmap str (gset Z))
    with ({[dk := list_to_set entries.*2]} : gmap str (gset Z)); [done|].
  apply map_eq. intros k. rewrite pools_lookup.
  destruct (decide (k = dk)) as [->|Hk].
  - rewrite lookup_singleton_eq, decide_True.
    + f_equal. apply set_eq. intros z.
      rewrite elem_of_starts_of, elem_of_list_to_set, list_elem_of_fmap. split.
      * intros [[k z'] [-> Hin]]. simpl. by rewrite <- (Hdk _ Hin).
      * intros Hin. by exists (dk, z).
    + destruct entries as [|e entries]; [done|].
      rewrite <- (Hdk e) by apply list_elem_of_here.
      simpl. apply list_elem_of_here.
  - rewrite lookup_singleton_ne, decide_False; [done| |done].
    intros (e & -> & Hin)%list_elem_of_fmap. by apply Hk, Hdk.
Qed.

(** C1: when the parsed entries of the lines all have the date [dk] and
    their distinct start minutes are the hourly run of length [r] from [a],
    the result is the one period of that date, from [a] to the last start
    plus 60 minutes and of [r] hours, when [r] reaches the minimum, and
    nothing when it does not. *)
Theorem merge_correctness lines include_morning dk a r :
  (0 < r)%nat ->
  (forall e, e ∈ entries_of include_morning lines -> e.1 = dk) ->
  (forall z, z ∈ (entries_of include_morning lines).*2 <-> z ∈ hourly_run a r) ->
  build_continuous_periods cfg lines include_morning
  = if decide (LEAST_TIME_LENGTH cfg <= Z.of_nat r)
    then [format_period dk a (a + 60 * (Z.of_nat r - 1) + 60) (Z.of_nat r)]
    else [].
Proof.
  intros Hr Hdk Hrun. destruct r as [|n]; [lia|].
  rewrite build_continuous_periods_eq.
  rewrite (pools_one_date _ dk); [|intros Hnil|done].
  - rewrite bind_singleton, (periods_of_hourly_run _ _ a n).
    + unfold emit.
      replace (a + 60 * (Z.of_nat (S n) - 1)) with (a + 60 * Z.of_nat n) by lia.
      destruct (Z.geb_spec (Z.of_nat (S n)) (LEAST_TIME_LENGTH cfg));
        case_decide; done || lia.
    + intros z. by rewrite elem_of_list_to_set.
  - assert (Ha : a ∈ hourly_run a (S n)) by apply list_elem_of_here.
    apply Hrun in Ha. rewrite Hnil in Ha. by apply elem_of_nil in Ha.
Qed.

End Merger.

Lemma entries_of_fixture :
  entries_of true [lineA; lineB; lineA]
  = [(py "12-02", 480); (py "12-02", 540); (py "12-02", 480)].
Proof. vm_compute. reflexivity. Qed.

Lemma merge_correctness_witness :
  build_continuous_periods cfg2 [lineA; lineB; lineA] true
  = [py "12-02 | 连续空余 08:00-10:00 (2小时)"].
Proof.
  refine (eq_trans
    (merge_correctness cfg2 [lineA; lineB; lineA] true (py "12-02") 480 2 _ _ _)
    _).
  - lia.
  - rewrite entries_of_fixture. intros e He.
    repeat (apply elem_of_cons in He as [->|He]); try reflexivity.
    by apply elem_of_nil in He.
  - rewrite entries_of_fixture. intros z. simpl.
    rewrite !elem_of_cons, !elem_of_nil. tauto.
  - vm_compute. reflexivity.
Defined.

Lemma merge_order_insensitive_witness :
  build_continuous_periods cfg2 [lineA; lineB; lineC; lineA] true
  ≡ₚ build_continuous_periods cfg2 [lineA; lineC; lineB; lineA] true.
Proof.
  apply (merge_order_insensitive cfg2 [lineA; lineB; lineC; lineA]
           [lineA; lineC; lineB; lineA] true).
  apply (Permutation_rev [lineA; lineB; lineC; lineA]).
Defined.

(** The parser on sample lines. *)
Example parse_line_examples :
  parse_line true lineD = Some (py "12-03", 540)
  /\ parse_line false lineD = None
  /\ parse_line true (py "x | (a) B (08:00 - 09:00) (10:00-11:00)") = Some (py "x", 600)
  /\ parse_line true (py "a|b|c (08:30-09:30)") = Some (py "a", 510)
  /\ parse_line true (py "| c (08:30-09:30)") = Some (py "", 510)
  /\ parse_line true (py "12月2日 周二 | c (8:99-09:30) tail") = Some (py "12月2日", 579)
  /\ parse_line true (py "1-2 | c (123:00-09:30)") = None
  /\ parse_line true (py "1-2 | c (23:00-09:30") = None
  /\ parse_line true (py "2025/1/2 | c (٠٩:00-09:30)") = Some (py "2025/1/2", 540)
  /\ build_continuous_periods cfg1
       [lineC; lineD; py "12-03 x | (23:00-24:00)"; lineA; lineB; py "junk"]
       true
     = [py "12-02 | 连续空余 08:00-10:00 (2小时)";
        py "12-02 | 连续空余 11:00-12:00 (1小时)";
        py "12-03 | 连续空余 09:00-10:00 (1小时)";
        py "12-03 | 连续空余 23:00-24:00 (1小时)"].
Proof. vm_compute. repeat split. Qed.

(** ** Python strings *)

(** The string functions on sample inputs. *)
Example string_examples :
  strip (py "  12-02 周二 ") = py "12-02 周二"
  /\ split (py " a  b c ") = [py "a"; py "b"; py "c"]
  /\ splitlines (py "a
b") = [py "a"; py "b"]
  /\ format_02d 8 = py "08" /\ format_02d 123 = py "123"
  /\ format_d 10 = py "10"
  /\ int (py "08") = Some 8 /\ int (py "０８") = Some 8 /\ int (py "8a") = None
  /\ contains (py "上午") (py "12-02 周二 上午 | A") = true.
Proof. vm_compute. repeat split. Qed.

Lemma lstrip_nonspace c s : isspace c = false -> lstrip (c :: s) = c :: s.
Proof. intros H. simpl. by rewrite H. Qed.

Lemma lstrip_head s c t : lstrip s = c :: t -> isspace c = false.
Proof.
  induction s as [|x s IH]; simpl; [done|].
  destruct (isspace x) eqn:E; [done|]. by intros [= <- _].
Qed.

Lemma lstrip_snoc_nonspace s c :
  isspace c = false -> lstrip (s ++ [c]) = lstrip s ++ [c].
Proof.
  intros Hc. induction s as [|x s IH]; simpl; [by rewrite Hc|].
  by destruct (isspace x).
Qed.

Lemma lstrip_idemp s : lstrip (lstrip s) = lstrip s.
Proof.
  destruct (lstrip s) as [|c t] eqn:E; [done|].
  apply lstrip_nonspace. by eapply lstrip_head.
Qed.

Lemma rstrip_idemp s : rstrip (rstrip s) = rstrip s.
Proof. unfold rstrip. by rewrite rev_involutive, lstrip_idemp. Qed.

Lemma rstrip_cons_nonspace c s :
  isspace c = false -> rstrip (c :: s) = c :: rstrip s.
Proof.
  intros Hc. unfold rstrip. simpl.
  by rewrite lstrip_snoc_nonspace, rev_app_distr by done.
Qed.

(** [strip] returns a string that [strip] leaves as it is. *)
Lemma strip_idemp s : strip (strip s) = strip s.
Proof.
  unfold strip. destruct (lstrip s) as [|c t] eqn:E; [done|].
  pose proof (lstrip_head _ _ _ E) as Hc.
  rewrite rstrip_cons_nonspace by done.
  rewrite lstrip_nonspace, rstrip_cons_nonspace by done.
  by rewrite rstrip_idemp.
Qed.

Lemma split_aux_nonempty cur s : cur <> [] -> split_aux cur s <> [].
Proof.
  revert cur. induction s as [|c s IH]; intros cur Hcur; simpl.
  - by destruct cur.
  - destruct (isspace c); [by destruct cur | by apply IH].
Qed.

(** [left.split()[0]] exists for a stripped string that is not empty. *)
Lemma split_stripped_nonempty s : strip s <> [] -> split (strip s) <> [].
Proof.
  intros Hne. destruct (strip s) as [|c t] eqn:E; [done|].
  assert (Hc : isspace c = false).
  { unfold strip in E. destruct (lstrip s) as [|c' t'] eqn:E'; [done|].
    pose proof (lstrip_head _ _ _ E') as Hc'.
    rewrite rstrip_cons_nonspace in E by done. by injection E as <- _. }
  unfold split. simpl. rewrite Hc. by apply split_aux_nonempty.
Qed.

(** ** The notification step of [main] *)

(** The lines of a message are their own signatures. *)
Lemma signatures_stripped (l : list str) :
  Forall (fun ln => strip ln = ln /\ ln <> []) l -> signatures l = l.
Proof.
  unfold signatures. induction 1 as [|ln l [Hs Hne] _ IH]; [done|].
  simpl. rewrite filter_cons, Hs, decide_True by done. by f_equal.
Qed.

Lemma message_lines_stripped message :
  Forall (fun ln => strip ln = ln /\ ln <> []) (message_lines message).
Proof.
  unfold message_lines. apply Forall_forall. intros ln.
  rewrite list_elem_of_filter, list_elem_of_fmap.
  intros [Hne (x & -> & _)]. split; [apply strip_idemp | done].
Qed.

Lemma filtered_lines_Forall (P : str -> Prop) include_morning lines :
  Forall P lines -> Forall P (filtered_lines include_morning lines).
Proof.
  unfold filtered_lines. induction 1 as [|ln l Hln _ IH]; simpl; [constructor|].
  destruct (_ || _); [by constructor | done].
Qed.

(** C9: when the minimum of continuous hours is below 2, the candidates
    [main] hands to the memory are the non-blank stripped lines of the
    message without the morning lines, in their order; each of them is its
    own signature, and the call to the memory is made on them. *)
Theorem merge_bypassed cfg include_morning today file w message :
  LEAST_TIME_LENGTH cfg < 2 ->
  let lines := filtered_lines include_morning (message_lines message) in
  main_merged cfg include_morning message = lines
  /\ signatures lines = lines
  /\ main_notify cfg include_morning today file w message
     = match lines with
       | [] => ([], file)
       | _ =>
         let r := filter_messages_by_memory cfg today file w lines None in
         (r.1.1, r.2)
       end.
Proof.
  intros Hlt lines.
  assert (Hm : main_merged cfg include_morning message = lines).
  { unfold main_merged. destruct (Z.geb_spec (LEAST_TIME_LENGTH cfg) 2); [lia|done]. }
  split; [done|]. split.
  - apply signatures_stripped, filtered_lines_Forall, message_lines_stripped.
  - unfold main_notify. rewrite Hm. destruct lines as [|ln lines']; [done|].
    by destruct (filter_messages_by_memory _ _ _ _ _ _) as [[tn upd] file'].
Qed.

Lemma merge_bypassed_witness :
  main_merged cfg1 false
    (lineA ++ py "
" ++ lineD ++ py "
  " ++ py "
" ++ lineC)
  = [lineA; lineC].
Proof.
  refine (eq_trans (proj1
    (merge_bypassed cfg1 false day1 FileMissing WriteOk _ _)) _).
  - simpl. lia.
  - vm_compute. reflexivity.
Defined.

(** ** The date key *)

Section Matcher.
Context {A B : Type} (f : A -> B).

Lemma option_map_orelse (x y : option A) :
  option_map f (orelse x y) = orelse (option_map f x) (option_map f y).
Proof. by destruct x. Qed.

Lemma rep_match_agree cl greedy (k1 k2 : cont A) :
  (forall pos s g1 g2, option_map f (k1 pos s g1) = option_map f (k2 pos s g2)) ->
  forall s lo hi pos g1 g2,
    option_map f (rep_match cl greedy lo hi pos s g1 k1)
    = option_map f (rep_match cl greedy lo hi pos s g2 k2).
Proof.
  intros Hk. induction s as [|c s IH]; intros lo hi pos g1 g2;
    cbn [rep_match]; destruct greedy; rewrite !option_map_orelse; f_equal;
    try (destruct lo; [apply Hk | done]); try done;
    (destruct (class_matches cl c && hi_allows hi); [apply IH | done]).
Qed.

(** What a match returns up to [f] does not depend on the captures, when
    this holds of its continuation. *)
Lemma re_match_agree r :
  forall k1 k2 : cont A,
  (forall pos s g1 g2, option_map f (k1 pos s g1) = option_map f (k2 pos s g2)) ->
  forall pos s g1 g2,
    option_map f (re_match r pos s g1 k1) = option_map f (re_match r pos s g2 k2).
Proof.
  induction r as [cl|cl greedy lo hi|a IHa b IHb|a IHa b IHb|name a IHa|];
    intros k1 k2 Hk pos s g1 g2; cbn [re_match].
  - destruct s as [|c s]; [done|]. destruct (class_matches cl c); [apply Hk|done].
  - by apply rep_match_agree.
  - apply IHa. intros pos' s' g1' g2'. by apply IHb.
  - rewrite !option_map_orelse. f_equal; [by apply IHa | by apply IHb].
  - apply IHa. intros pos' s' g1' g2'. apply Hk.
  - destruct (Nat.eqb pos 0); [apply Hk | done].
Qed.

End Matcher.

Lemma match_at_Group name a pos s :
  option_map m_text (match_at (Group name a) pos s)
  = option_map m_text (match_at a pos s).
Proof.
  unfold match_at. cbn [re_match]. apply re_match_agree.
  intros pos' s' g1 g2. done.
Qed.

Lemma match_at_Alt a b pos s :
  match_at (Alt a b) pos s = orelse (match_at a pos s) (match_at b pos s).
Proof. reflexivity. Qed.

Lemma match_at_date_re pos s :
  option_map m_text (match_at date_re pos s)
  = first_match_at [full_date_re; month_day_re; cn_month_day_re] pos s.
Proof.
  unfold date_re. cbn [first_match_at].
  rewrite !match_at_Alt, !option_map_orelse, !match_at_Group.
  by destruct (option_map m_text (match_at full_date_re pos s)),
    (option_map m_text (match_at month_day_re pos s)),
    (option_map m_text (match_at cn_month_day_re pos s)).
Qed.

Lemma search_from_date_re pos s :
  option_map m_text (search_from date_re pos s)
  = leftmost [full_date_re; month_day_re; cn_month_day_re] pos s.
Proof.
  revert pos. induction s as [|c s IH]; intros pos; cbn [search_from leftmost];
    rewrite option_map_orelse, match_at_date_re; [done|]. by rewrite IH.
Qed.

(** C8, as the claim states it, fails: a month-day token left of a full
    date is the date key. *)
Lemma date_key_not_by_priority :
  normalize_date_key (py "12-02 2025-12-02")
    <> date_key_by_priority (py "12-02 2025-12-02")
  /\ normalize_date_key (py "12-02 2025-12-02") = py "12-02"
  /\ date_key_by_priority (py "12-02 2025-12-02") = py "2025-12-02"
  /\ normalize_date_key (py "12月2日 12-03") = py "12月2日"
  /\ date_key_by_priority (py "12月2日 12-03") = py "12-03".
Proof. split; [intros H; vm_compute in H; discriminate|]. vm_compute. repeat split. Qed.

(** C8 (amended): the date key of a label is the match at the leftmost
    position of the stripped label where a full date, a month-day token or
    a localized month-day token matches, in this order of preference at that
    position; it is the first whitespace-delimited token when none matches
    anywhere, and the empty string for a blank label. *)
Theorem date_key_leftmost_match label :
  normalize_date_key label = date_key_leftmost label.
Proof.
  unfold normalize_date_key, date_key_leftmost, search.
  destruct (strip label) as [|c l]; [done|].
  rewrite <- search_from_date_re. by destruct (search_from date_re 0 (c :: l)).
Qed.

(** ** More on the notification memory *)

(** The stored count of the day after a call that wrote its memory. *)
Lemma stored_count_updated cfg today file w messages threshold s :
  stored_count today
    (filter_messages_by_memory cfg today file w messages threshold).1.2 s
  = stored_count today (load_memory file) s
    + Z.of_nat (occ s (signatures messages)).
Proof.
  destruct (occ s (signatures messages)) as [|k] eqn:Hk.
  - unfold stored_count at 1.
    rewrite filter_updated, prune_lookup, classify_lookup, Hk.
    unfold stored_count.
    destruct (load_memory file !! s) as [e|]; [|simpl; lia].
    destruct (seen_today today e) eqn:E; [rewrite E|]; simpl; lia.
  - rewrite <- Hk. apply stored_count_today, filter_updated_presented. lia.
Qed.

Lemma allowance_add t c k1 k2 :
  allowance t c (k1 + k2)
  = (allowance t c k1 + allowance t (c + Z.of_nat k1) k2)%nat.
Proof. unfold allowance. lia. Qed.

(** X1: over any number of consecutive calls of one day that write their
    memory, a signature with stored count [c] of the day is notified as often
    as its presentations stay within the threshold; from a count that is not
    negative that is at most [threshold] times. *)
Theorem daily_cap cfg today threshold file calls s :
  let t := threshold_of cfg threshold in
  let c := stored_count today (load_memory file) s in
  let notified := (run_calls cfg today threshold file calls).1 in
  occ s (concat notified) = allowance t c (occ s (concat (signatures <$> calls)))
  /\ (0 <= c -> Z.of_nat (occ s (concat notified)) <= Z.max 0 t).
Proof.
  intros t c notified.
  assert (H : occ s (concat notified)
              = allowance t c (occ s (concat (signatures <$> calls)))).
  { subst t c notified. revert file.
    induction calls as [|messages calls IH]; intros file.
    - simpl. rewrite occ_nil. unfold allowance. lia.
    - cbn [run_calls fst snd fmap list_fmap concat].
      rewrite !occ_app, allowance_add, IH, filter_to_notify_occ.
      rewrite filter_file. simpl. by rewrite stored_count_updated. }
  split; [done|]. intros Hc. rewrite H. unfold allowance. lia.
Qed.

Lemma daily_cap_witness :
  Z.of_nat (occ sigA (concat (run_calls cfg2 day1 None (FileDict mem_day0)
                               [[sigA]; [sigB; sigA]; [sigA; sigA]]).1)) <= 2.
Proof.
  refine (proj2 (daily_cap cfg2 day1 None (FileDict mem_day0)
                   [[sigA]; [sigB; sigA]; [sigA; sigA]] sigA) _).
  vm_compute. discriminate.
Defined.

(** X2: a call leaves an entry of the day that it is not presented with as
    it was, and deletes an entry of another day that it is not presented
    with. *)
Theorem unpresented_entries cfg today file w messages threshold s :
  s ∉ signatures messages ->
  (filter_messages_by_memory cfg today file w messages threshold).1.2 !! s
  = match load_memory file !! s with
    | Some e => if seen_today today e then Some e else None
    | None => None
    end.
Proof.
  intros Hs. rewrite filter_updated, prune_lookup, classify_lookup.
  destruct (occ s (signatures messages)) eqn:Hk; [done|].
  exfalso. apply Hs, occ_elem_of. lia.
Qed.

Lemma unpresented_entries_witness :
  (filter_messages_by_memory cfg2 day1 (FileDict mem_day0) WriteOk [sigB]
     None).1.2 !! sigA = None.
Proof.
  refine (eq_trans (unpresented_entries cfg2 day1 (FileDict mem_day0) WriteOk
                      [sigB] None sigA _) _).
  - intros H. vm_compute in H.
    apply elem_of_cons in H as [H|H]; [discriminate | by apply elem_of_nil in H].
  - reflexivity.
Defined.

Lemma classify_threshold_mono today t t' l upd tn tn' :
  t <= t' ->
  sublist tn tn' ->
  (fold_left (classify_slot today t) l (upd, tn)).1
  = (fold_left (classify_slot today t') l (upd, tn')).1
  /\ sublist (fold_left (classify_slot today t) l (upd, tn)).2
             (fold_left (classify_slot today t') l (upd, tn')).2.
Proof.
  intros Ht. revert upd tn tn'.
  induction l as [|x l IH]; intros upd tn tn' Hsub; [done|].
  cbn [fold_left]. rewrite !classify_slot_eq. apply IH.
  destruct (Z.leb_spec (stored_count today upd x + 1) t),
    (Z.leb_spec (stored_count today upd x + 1) t'); try lia.
  - by apply sublist_app.
  - rewrite <- (app_nil_r tn). apply sublist_app; [done | apply sublist_nil_l].
  - done.
Qed.

(** X3: the sightings are counted whatever the threshold: the returned
    mapping does not depend on it, and a higher threshold only adds
    notifications. *)
Theorem threshold_monotone cfg cfg' today file w messages threshold threshold' :
  threshold_of cfg threshold <= threshold_of cfg' threshold' ->
  (filter_messages_by_memory cfg today file w messages threshold).1.2
  = (filter_messages_by_memory cfg' today file w messages threshold').1.2
  /\ sublist
       (filter_messages_by_memory cfg today file w messages threshold).1.1
       (filter_messages_by_memory cfg' today file w messages threshold').1.1.
Proof.
  intros Ht. rewrite !filter_updated, !filter_to_notify.
  destruct (classify_threshold_mono today _ _ (signatures messages)
              (load_memory file) [] [] Ht (sublist_nil_l _)) as [-> Hsub].
  done.
Qed.

Lemma threshold_monotone_witness :
  sublist
    (filter_messages_by_memory cfg2 day1 FileMissing WriteOk
       [sigA; sigA; sigA] (Some 1)).1.1
    (filter_messages_by_memory cfg2 day1 FileMissing WriteOk
       [sigA; sigA; sigA] None).1.1.
Proof.
  refine (proj2 (threshold_monotone cfg2 cfg2 day1 FileMissing WriteOk
                   [sigA; sigA; sigA] (Some 1) None _)).
  simpl. lia.
Defined.

(** X4: a signature whose stored count of the day has reached the
    threshold is not notified, however often the call presents it. *)
Theorem saturated_not_notified cfg today file w messages threshold s :
  threshold_of cfg threshold <= stored_count today (load_memory file) s ->
  s ∉ (filter_messages_by_memory cfg today file w messages threshold).1.1.
Proof.
  intros Ht Hin%occ_elem_of. rewrite filter_to_notify_occ in Hin.
  unfold allowance in Hin. lia.
Qed.

Lemma saturated_not_notified_witness :
  sigA ∉ (filter_messages_by_memory cfg2 day1 (FileDict mem_day1) WriteOk
            [sigA; sigA] (Some 1)).1.1.
Proof.
  apply (saturated_not_notified cfg2 day1 (FileDict mem_day1) WriteOk
           [sigA; sigA] (Some 1) sigA).
  vm_compute. discriminate.
Defined.

(** X5: every notified line is the stripped form of a candidate of the
    call, is not empty and is left as it is by [strip]; blank candidates are
    never notified. *)
Theorem to_notify_stripped cfg today file w messages threshold :
  Forall (fun x => x <> [] /\ strip x = x
                   /\ exists m, m ∈ messages /\ strip m = x)
    (filter_messages_by_memory cfg today file w messages threshold).1.1.
Proof.
  apply Forall_forall. intros x Hx.
  pose proof (filter_to_notify_sublist cfg today file w messages threshold)
    as Hsub.
  apply (elem_of_sublist _ _ _ Hx) in Hsub. unfold signatures in Hsub.
  rename Hsub into Hx'. clear Hx. rename Hx' into Hx.
  apply list_elem_of_filter in Hx as [Hne (m & -> & Hm)%list_elem_of_fmap].
  split; [done|]. split; [apply strip_idemp | by exists m].
Qed.

(** ** More on the period merger *)

Lemma entries_of_app include_morning l1 l2 :
  entries_of include_morning (l1 ++ l2)
  = entries_of include_morning l1 ++ entries_of include_morning l2.
Proof. unfold entries_of. apply omap_app. Qed.

Lemma build_of_entries cfg lines lines' include_morning include_morning' :
  entries_of include_morning lines = entries_of include_morning' lines' ->
  build_continuous_periods cfg lines include_morning
  = build_continuous_periods cfg lines' include_morning'.
Proof. intros H. by rewrite !build_continuous_periods_eq, H. Qed.

Lemma parse_line_morning line :
  parse_line false line
  = if contains (py "上午") line then None else parse_line true line.
Proof.
  unfold parse_line. destruct line as [|c line]; [done|].
  cbn [negb andb]. by destruct (contains _ _).
Qed.

Lemma entries_of_cons include_morning ln lines :
  entries_of include_morning (ln :: lines)
  = match parse_line include_morning ln with
    | Some e => e :: entries_of include_morning lines
    | None => entries_of include_morning lines
    end.
Proof. reflexivity. Qed.

Lemma filtered_lines_cons include_morning ln lines :
  filtered_lines include_morning (ln :: lines)
  = if include_morning || negb (contains (py "上午") ln)
    then ln :: filtered_lines include_morning lines
    else filtered_lines include_morning lines.
Proof. reflexivity. Qed.

Lemma entries_of_filtered include_morning lines :
  entries_of include_morning (filtered_lines include_morning lines)
  = entries_of include_morning lines.
Proof.
  induction lines as [|ln lines IH]; [done|].
  rewrite filtered_lines_cons, (entries_of_cons _ ln lines).
  destruct include_morning; cbn [orb].
  - by rewrite entries_of_cons, IH.
  - rewrite (parse_line_morning ln).
    destruct (contains (py "上午") ln) eqn:E; cbn [negb]; [done|].
    by rewrite entries_of_cons, parse_line_morning, E, IH.
Qed.

Lemma entries_of_filtered_true lines :
  entries_of false (filtered_lines false lines)
  = entries_of true (filtered_lines false lines).
Proof.
  induction lines as [|ln lines IH]; [done|].
  rewrite filtered_lines_cons. cbn [orb].
  destruct (contains (py "上午") ln) eqn:E; cbn [negb]; [done|].
  by rewrite !entries_of_cons, parse_line_morning, E, IH.
Qed.

(** X6: the morning filter of [main] and that of the merger are the same:
    merging the filtered lines gives what merging the lines gives, and
    merging without the morning lines is merging the lines that do not
    contain the morning marker. *)
Theorem morning_filter_once cfg include_morning lines :
  build_continuous_periods cfg (filtered_lines include_morning lines)
    include_morning
  = build_continuous_periods cfg lines include_morning
  /\ build_continuous_periods cfg lines false
     = build_continuous_periods cfg (filtered_lines false lines) true.
Proof.
  split.
  - apply build_of_entries, entries_of_filtered.
  - apply build_of_entries.
    by rewrite <- entries_of_filtered_true, entries_of_filtered.
Qed.

(** X7: a line the parser skips (an empty line, a morning line when these
    are left out, a line without a time range) changes nothing, wherever it
    stands; no lines give no periods. *)
Theorem unparsed_line_dropped cfg include_morning l1 ln l2 :
  parse_line include_morning ln = None ->
  build_continuous_periods cfg (l1 ++ ln :: l2) include_morning
  = build_continuous_periods cfg (l1 ++ l2) include_morning.
Proof.
  intros Hln. apply build_of_entries.
  rewrite !entries_of_app. f_equal. unfold entries_of. simpl. by rewrite Hln.
Qed.

Lemma unparsed_line_dropped_witness :
  build_continuous_periods cfg2 ([lineA] ++ py "no time here" :: [lineB]) true
  = build_continuous_periods cfg2 ([lineA] ++ [lineB]) true.
Proof.
  apply (unparsed_line_dropped cfg2 true [lineA] (py "no time here") [lineB]).
  vm_compute. reflexivity.
Defined.

Lemma pools_add_idemp k v (pools : list (str * gset Z)) :
  pools_add k v (pools_add k v pools) = pools_add k v pools.
Proof.
  induction pools as [|[k0 s0] pools IH]; simpl.
  - rewrite decide_True by done. f_equal. f_equal. set_solver.
  - case_decide as Hk; simpl.
    + rewrite decide_True by done. f_equal. f_equal. set_solver.
    + rewrite decide_False by done. by rewrite IH.
Qed.

Lemma pools_add_absorbed k v k' v' (pools : list (str * gset Z)) :
  pools_add k v pools = pools ->
  pools_add k v (pools_add k' v' pools) = pools_add k' v' pools.
Proof.
  induction pools as [|[k0 s0] pools IH]; [done|]. simpl.
  destruct (decide (k0 = k)) as [Hk|Hk], (decide (k0 = k')) as [Hk'|Hk'];
    simpl; intros [= H].
  - rewrite decide_True by done. f_equal. f_equal. set_solver.
  - rewrite decide_True by done. f_equal. f_equal. done.
  - rewrite decide_False by done. by rewrite H.
  - rewrite decide_False by done. f_equal. by apply IH.
Qed.

Lemma fold_collect_absorbed e entries pools :
  collect pools e = pools ->
  collect (fold_left collect entries pools) e = fold_left collect entries pools.
Proof.
  revert pools. induction entries as [|e' entries IH]; intros pools H; [done|].
  cbn [fold_left]. apply IH. unfold collect in *. by apply pools_add_absorbed.
Qed.

Lemma collect_seen entries e :
  e ∈ entries ->
  collect (fold_left collect entries []) e = fold_left collect entries [].
Proof.
  intros (l1 & l2 & ->)%list_elem_of_split.
  rewrite fold_left_app. cbn [fold_left].
  apply fold_collect_absorbed. unfold collect. apply pools_add_idemp.
Qed.

(** X8: a further copy of a line, added at the end, changes nothing, the
    order of the periods included: the same start of a date counts once. *)
Theorem duplicate_line_absorbed cfg include_morning lines ln :
  ln ∈ lines ->
  build_continuous_periods cfg (lines ++ [ln]) include_morning
  = build_continuous_periods cfg lines include_morning.
Proof.
  intros Hln. rewrite !build_continuous_periods_eq, entries_of_app.
  unfold entries_of at 2. simpl.
  destruct (parse_line include_morning ln) as [e|] eqn:He.
  - rewrite fold_left_app. cbn [fold_left].
    rewrite collect_seen; [done|]. apply elem_of_entries_of. by exists ln.
  - by rewrite app_nil_r.
Qed.

Lemma duplicate_line_absorbed_witness :
  build_continuous_periods cfg2 ([lineA; lineB] ++ [lineA]) true
  = build_continuous_periods cfg2 [lineA; lineB] true.
Proof.
  apply (duplicate_line_absorbed cfg2 true [lineA; lineB] lineA).
  apply list_elem_of_here.
Defined.

Lemma pools_add_app k v (P Q : list (str * gset Z)) :
  k ∉ P.*1 -> pools_add k v (P ++ Q) = P ++ pools_add k v Q.
Proof.
  induction P as [|[k0 s0] P IH]; [done|]. simpl.
  intros Hk. rewrite decide_False.
  - f_equal. apply IH. intros Hin. apply Hk. by right.
  - intros ->. apply Hk. by left.
Qed.

Lemma fold_collect_keys entries pools k :
  k ∈ (fold_left collect entries pools).*1 <-> k ∈ pools.*1 \/ k ∈ entries.*1.
Proof.
  revert pools. induction entries as [|e entries IH]; intros pools.
  - simpl. rewrite elem_of_nil. tauto.
  - cbn [fold_left]. rewrite IH. unfold collect at 1.
    rewrite pools_add_keys, fmap_cons, elem_of_cons. tauto.
Qed.

Lemma fold_collect_app entries (P Q : list (str * gset Z)) :
  (forall e, e ∈ entries -> e.1 ∉ P.*1) ->
  fold_left collect entries (P ++ Q) = P ++ fold_left collect entries Q.
Proof.
  revert Q. induction entries as [|e entries IH]; intros Q Hdis; [done|].
  cbn [fold_left]. unfold collect at 2 4.
  rewrite pools_add_app by (apply Hdis; by left).
  apply IH. intros e' He'. apply Hdis. by right.
Qed.

(** X9: the dates are merged one by one, in the order of their first line:
    when no date of the first lines is a date of the next lines, the result
    is the periods of the first lines followed by those of the next. *)
Theorem dates_independent cfg include_morning l1 l2 :
  (forall e1 e2, e1 ∈ entries_of include_morning l1 ->
                 e2 ∈ entries_of include_morning l2 -> e1.1 <> e2.1) ->
  build_continuous_periods cfg (l1 ++ l2) include_morning
  = build_continuous_periods cfg l1 include_morning
    ++ build_continuous_periods cfg l2 include_morning.
Proof.
  intros Hdis. rewrite !build_continuous_periods_eq, entries_of_app.
  rewrite fold_left_app, <- bind_app. f_equal.
  rewrite <- (app_nil_r (fold_left collect (entries_of include_morning l1) []))
    at 1.
  apply fold_collect_app. intros e2 He2 Hin.
  apply fold_collect_keys in Hin as [Hin|Hin]; [by apply elem_of_nil in Hin|].
  apply list_elem_of_fmap in Hin as (e1 & Heq & He1).
  by apply (Hdis e1 e2).
Qed.

Lemma dates_independent_witness :
  build_continuous_periods cfg1 ([lineA; lineB] ++ [lineD]) true
  = build_continuous_periods cfg1 [lineA; lineB] true
    ++ build_continuous_periods cfg1 [lineD] true.
Proof.
  apply (dates_independent cfg1 true [lineA; lineB] [lineD]).
  intros e1 e2 H1 H2.
  replace (entries_of true [lineA; lineB])
    with [(py "12-02", 480); (py "12-02", 540)] in H1
    by (vm_compute; reflexivity).
  replace (entries_of true [lineD]) with [(py "12-03", 540)] in H2
    by (vm_compute; reflexivity).
  apply list_elem_of_singleton in H2 as ->.
  repeat (apply elem_of_cons in H1 as [->|H1]);
    [intros H; vm_compute in H; discriminate ..|].
  by apply elem_of_nil in H1.
Defined.

(** *** All the runs of a date *)

Section Runs.
Variable cfg : config.
Variable dk : str.

Lemma emit_elem_of cs cp cl result x :
  x ∈ emit cfg dk cs cp cl result
  <-> x ∈ result
      \/ (LEAST_TIME_LENGTH cfg <= cl /\ x = format_period dk cs (cp + 60) cl).
Proof.
  unfold emit. destruct (Z.geb_spec cl (LEAST_TIME_LENGTH cfg)).
  - rewrite elem_of_app, list_elem_of_singleton. intuition lia.
  - intuition lia.
Qed.

Lemma max_run_ext (U V : Z -> Prop) a n :
  (forall z, U z <-> V z) -> max_run U a n <-> max_run V a n.
Proof.
  intros H. unfold max_run. rewrite !H.
  split; intros (? & Hrun & ? & ?); repeat split; try done;
    intros i Hi; apply H; by apply Hrun.
Qed.

(** A block of [k] hourly starts from [cs], with every other member of [U]
    at least two hours after its last start: the only maximal run that
    begins before the end of the block is the block. *)
Lemma max_run_block (U : Z -> Prop) cs k a n :
  1 <= k ->
  (forall z, U z ->
     (exists i, 0 <= i < k /\ z = cs + 60 * i) \/ cs + 60 * k + 60 <= z) ->
  (forall i, 0 <= i < k -> U (cs + 60 * i)) ->
  max_run U a n -> a < cs + 60 * k -> a = cs /\ n = k.
Proof.
  intros Hk Hfar Hblock (Hn & Hrun & Hbefore & Hafter) Ha.
  assert (U a) as HUa by (replace a with (a + 60 * 0) by lia; apply Hrun; lia).
  destruct (Hfar a HUa) as [(i0 & Hi0 & ->)|]; [|lia].
  assert (i0 = 0) as ->.
  { destruct (decide (i0 = 0)); [done|]. exfalso. apply Hbefore.
    replace (cs + 60 * i0 - 60) with (cs + 60 * (i0 - 1)) by lia.
    apply Hblock. lia. }
  split; [lia|].
  destruct (Z.lt_trichotomy n k) as [Hlt|[->|Hgt]]; [|done|].
  - exfalso. apply Hafter.
    replace (cs + 60 * 0 + 60 * n) with (cs + 60 * n) by lia.
    apply Hblock. lia.
  - exfalso.
    assert (HU : U (cs + 60 * 0 + 60 * k)) by (apply Hrun; lia).
    destruct (Hfar _ HU) as [(i & Hi & Heq)|]; lia.
Qed.

Lemma block_max_run (U : Z -> Prop) cs k :
  1 <= k ->
  (forall z, U z ->
     (exists i, 0 <= i < k /\ z = cs + 60 * i) \/ cs + 60 * k + 60 <= z) ->
  (forall i, 0 <= i < k -> U (cs + 60 * i)) ->
  max_run U cs k.
Proof.
  intros Hk Hfar Hblock. split; [done|]. split; [done|]. split.
  - intros HU. destruct (Hfar _ HU) as [(i & Hi & Heq)|]; lia.
  - intros HU. destruct (Hfar _ HU) as [(i & Hi & Heq)|]; lia.
Qed.

(** What the scan adds to [result]: the maximal runs of the block it holds
    and of the starts still to come that are long enough. *)
Lemma scan_runs_elem_of rest :
  forall cs k result,
  1 <= k ->
  StronglySorted Z.lt rest ->
  Forall (fun z => exists j, 1 <= j /\ z = cs + 60 * (k - 1) + 60 * j) rest ->
  forall x,
    x ∈ scan_runs cfg dk cs (cs + 60 * (k - 1)) k rest result
    <-> x ∈ result
        \/ exists a n,
             LEAST_TIME_LENGTH cfg <= n
             /\ x = format_period dk a (a + 60 * n) n
             /\ max_run (fun z => (exists i, 0 <= i < k /\ z = cs + 60 * i)
                                   \/ z ∈ rest) a n.
Proof.
  induction rest as [|s rest IH]; intros cs k result Hk Hsort Hrest x.
  - cbn [scan_runs]. rewrite emit_elem_of.
    replace (cs + 60 * (k - 1) + 60) with (cs + 60 * k) by lia.
    set (U := fun z => (exists i, 0 <= i < k /\ z = cs + 60 * i) \/ z ∈ []).
    assert (Hfar : forall z, U z ->
      (exists i, 0 <= i < k /\ z = cs + 60 * i) \/ cs + 60 * k + 60 <= z).
    { intros z [H|H]; [by left | by apply elem_of_nil in H]. }
    assert (Hblock : forall i, 0 <= i < k -> U (cs + 60 * i)).
    { intros i Hi. left. by exists i. }
    split; (intros [?|H]; [by left | right]).
    + destruct H as [Hle ->]. exists cs, k. split; [done|]. split; [done|].
      by apply block_max_run.
    + destruct H as (a & n & Hle & -> & Hmax).
      assert (a < cs + 60 * k).
      { destruct Hmax as (Hn & Hrun & _).
        destruct (Hrun 0 ltac:(lia)) as [(i & Hi & Heq)|H];
          [lia | by apply elem_of_nil in H]. }
      destruct (max_run_block U cs k a n) as [-> ->]; done.
  - apply StronglySorted_inv in Hsort as [Hsort Hlt].
    apply Forall_cons in Hrest as [(j & Hj & Hs) Hrest].
    assert (Hrest' : Forall (fun z => exists j', 1 <= j' /\ z = s + 60 * j') rest).
    { apply Forall_forall. intros z Hz.
      pose proof (proj1 (Forall_forall _ _) Hlt z Hz) as Hsz.
      destruct (proj1 (Forall_forall _ _) Hrest z Hz) as (jz & Hjz & ->).
      exists (jz - j). lia. }
    cbn [scan_runs]. destruct (Z.eqb_spec s (cs + 60 * (k - 1) + 60)) as [He|He].
    + replace s with (cs + 60 * (k + 1 - 1)) at 1 by lia.
      rewrite IH; [|lia|done|].
      * apply or_iff_compat_l. apply exist_proper. intros a.
        apply exist_proper. intros n. do 2 apply and_iff_compat_l.
        apply max_run_ext. intros z. rewrite elem_of_cons. split.
        -- intros [(i & Hi & ->)|Hz]; [|by right; right].
           destruct (decide (i = k)) as [->|]; [right; left; lia|].
           left. exists i. lia.
        -- intros [(i & Hi & ->)|[->|Hz]]; [left; exists i; lia| |by right].
           left. exists k. lia.
      * eapply Forall_impl; [exact Hrest'|]. intros z (j' & Hj' & ->).
        exists j'. lia.
    + assert (Hfar_s : cs + 60 * k + 60 <= s) by lia.
      replace (scan_runs cfg dk s s 1 rest)
        with (scan_runs cfg dk s (s + 60 * (1 - 1)) 1 rest)
        by (f_equal; lia).
      rewrite IH; [|lia|done|].
      2:{ eapply Forall_impl; [exact Hrest'|]. intros z (j' & Hj' & ->).
          exists j'. lia. }
      rewrite emit_elem_of.
      replace (cs + 60 * (k - 1) + 60) with (cs + 60 * k) by lia.
      set (U := fun z => (exists i, 0 <= i < k /\ z = cs + 60 * i)
                         \/ z ∈ s :: rest).
      set (U' := fun z => (exists i, 0 <= i < 1 /\ z = s + 60 * i) \/ z ∈ rest).
      assert (HU' : forall z, U' z <-> z ∈ s :: rest).
      { intros z. unfold U'. rewrite elem_of_cons. split.
        - intros [(i & Hi & ->)|Hz]; [left; lia | by right].
        - intros [->|Hz]; [left; exists 0; lia | by right]. }
      assert (Hge : forall z, z ∈ s :: rest -> cs + 60 * k + 60 <= z).
      { intros z [->|Hz]%elem_of_cons; [done|].
        pose proof (proj1 (Forall_forall _ _) Hlt z Hz). lia. }
      assert (Hfar : forall z, U z ->
        (exists i, 0 <= i < k /\ z = cs + 60 * i) \/ cs + 60 * k + 60 <= z).
      { intros z [H|H]; [by left | right; by apply Hge]. }
      assert (Hblock : forall i, 0 <= i < k -> U (cs + 60 * i)).
      { intros i Hi. left. by exists i. }
      assert (Hsplit : forall a n,
        max_run U a n <-> (a = cs /\ n = k) \/ max_run U' a n).
      { intros a n. split.
        - intros Hmax. destruct (Z.lt_ge_cases a (cs + 60 * k)) as [Ha|Ha].
          { left. by apply (max_run_block U cs k a n). }
          right. destruct Hmax as (Hn & Hrun & Hbefore & Hafter).
          split; [done|]. split; [|split].
          + intros i Hi. apply HU'. destruct (Hrun i Hi) as [(i' & ? & ?)|]; [lia|done].
          + intros H%HU'. apply Hbefore. by right.
          + intros H%HU'. apply Hafter. by right.
        - intros [[-> ->]|(Hn & Hrun & Hbefore & Hafter)].
          { by apply block_max_run. }
          assert (Ha : cs + 60 * k + 60 <= a).
          { apply Hge, HU'. replace a with (a + 60 * 0) by lia. apply Hrun. lia. }
          split; [done|]. split; [|split].
          + intros i Hi. right. apply HU'. by apply Hrun.
          + intros [(i & ? & ?)|H]; [lia|]. by apply Hbefore, HU'.
          + intros [(i & ? & ?)|H]; [lia|]. by apply Hafter, HU'. }
      split.
      * intros [[?|[Hle ->]]|(a & n & Hle & -> & Hmax)]; [by left| |].
        -- right. exists cs, k. split; [done|]. split; [done|].
           apply Hsplit. by left.
        -- right. exists a, n. split; [done|]. split; [done|].
           apply Hsplit. by right.
      * intros [?|(a & n & Hle & -> & [[-> ->]|Hmax]%Hsplit)].
        -- by left; left.
        -- left. right. done.
        -- right. by exists a, n.
Qed.

End Runs.

Lemma elem_of_sorted (starts : gset Z) z : z ∈ sorted starts <-> z ∈ starts.
Proof. unfold sorted. by rewrite merge_sort_Permutation, elem_of_elements. Qed.

(** [sorted] gives the starts in strictly increasing order. *)
Lemma sorted_strictly (starts : gset Z) : StronglySorted Z.lt (sorted starts).
Proof.
  assert (Hnd : NoDup (sorted starts)).
  { unfold sorted. rewrite merge_sort_Permutation. apply NoDup_elements. }
  assert (Hs : StronglySorted Z.le (sorted starts)).
  { unfold sorted. apply StronglySorted_merge_sort; apply _. }
  induction Hs as [|z l Hs IH Hle]; [constructor|].
  apply NoDup_cons in Hnd as [Hz Hnd]. constructor; [by apply IH|].
  apply Forall_forall. intros y Hy.
  pose proof (proj1 (Forall_forall _ _) Hle y Hy).
  assert (y <> z) by (intros ->; done). lia.
Qed.

Lemma periods_of_max_runs cfg dk (starts : gset Z) x :
  (forall z z', z ∈ starts -> z' ∈ starts -> exists j, z' = z + 60 * j) ->
  x ∈ periods_of cfg (dk, starts)
  <-> exists a n,
        LEAST_TIME_LENGTH cfg <= n
        /\ x = format_period dk a (a + 60 * n) n
        /\ max_run (fun z => z ∈ starts) a n.
Proof.
  intros Hgrid. unfold periods_of, merge_date.
  pose proof (sorted_strictly starts) as Hsort.
  pose proof (elem_of_sorted starts) as Hmem.
  destruct (sorted starts) as [|s0 rest].
  - split; [by intros ?%elem_of_nil|].
    intros (a & n & _ & _ & Hn & Hrun & _). exfalso.
    eapply elem_of_nil, Hmem, (Hrun 0). lia.
  - apply StronglySorted_inv in Hsort as [Hsort Hlt].
    replace (scan_runs cfg dk s0 s0 1 rest [])
      with (scan_runs cfg dk s0 (s0 + 60 * (1 - 1)) 1 rest [])
      by (f_equal; lia).
    rewrite scan_runs_elem_of; [|lia|done|].
    + split.
      * intros [?%elem_of_nil|(a & n & Hle & -> & Hmax)]; [done|].
        exists a, n. split; [done|]. split; [done|].
        eapply max_run_ext; [|exact Hmax]. intros z. rewrite <- Hmem, elem_of_cons.
        split; [intros [->|?]; [left; exists 0; lia | by right]|].
        intros [(i & Hi & ->)|?]; [left; lia | by right].
      * intros (a & n & Hle & -> & Hmax). right.
        exists a, n. split; [done|]. split; [done|].
        eapply max_run_ext; [|exact Hmax]. intros z. rewrite <- Hmem, elem_of_cons.
        split; [|intros [->|?]; [left; exists 0; lia | by right]].
        intros [(i & Hi & ->)|?]; [left; lia | by right].
    + apply Forall_forall. intros z Hz.
      pose proof (proj1 (Forall_forall _ _) Hlt z Hz).
      destruct (Hgrid s0 z) as (j & ->).
      * apply Hmem. by left.
      * apply Hmem. by right.
      * exists j. lia.
Qed.

Lemma elem_of_pools entries dk (starts : gset Z) :
  (dk, starts) ∈ fold_left collect entries []
  <-> dk ∈ entries.*1 /\ starts = starts_of dk entries.
Proof.
  rewrite elem_of_list_to_map by (apply pools_NoDup, NoDup_nil_2).
  rewrite pools_lookup. case_decide; split.
  - intros [= <-]. done.
  - intros [_ ->]. done.
  - done.
  - intros [? _]. done.
Qed.

(** X10: when the starts of a date are whole hours apart from each other,
    the result holds exactly the maximal hourly runs of the parsed starts
    of each date that are long enough: a period of [n] hours from [a] for a
    date is in the result if and only if the date has the [n] starts [a],
    [a + 60], ..., has neither [a - 60] nor [a + 60 n], and [n] is at least
    the minimum. *)
Theorem merge_maximal_runs cfg include_morning lines x :
  (forall e e', e ∈ entries_of include_morning lines ->
                e' ∈ entries_of include_morning lines ->
                e.1 = e'.1 -> exists j, e'.2 = e.2 + 60 * j) ->
  x ∈ build_continuous_periods cfg lines include_morning
  <-> exists dk a n,
        LEAST_TIME_LENGTH cfg <= n
        /\ x = format_period dk a (a + 60 * n) n
        /\ max_run (fun z => (dk, z) ∈ entries_of include_morning lines) a n.
Proof.
  intros Hgrid. rewrite build_continuous_periods_eq, list_elem_of_bind.
  set (entries := entries_of include_morning lines) in *.
  assert (Hper : forall dk,
    x ∈ periods_of cfg (dk, starts_of dk entries)
    <-> exists a n, LEAST_TIME_LENGTH cfg <= n
          /\ x = format_period dk a (a + 60 * n) n
          /\ max_run (fun z => (dk, z) ∈ entries) a n).
  { intros dk. rewrite periods_of_max_runs.
    - apply exist_proper. intros a. apply exist_proper. intros n.
      do 2 apply and_iff_compat_l. apply max_run_ext. intros z.
      apply elem_of_starts_of.
    - intros z z' Hz%elem_of_starts_of Hz'%elem_of_starts_of.
      by apply (Hgrid (dk, z) (dk, z')). }
  split.
  - intros ([dk starts] & Hx & [Hdk ->]%elem_of_pools).
    exists dk. by apply Hper.
  - intros (dk & a & n & Hle & -> & Hmax).
    exists (dk, starts_of dk entries). split.
    + apply Hper. by exists a, n.
    + apply elem_of_pools. split; [|done].
      destruct Hmax as (Hn & Hrun & _).
      apply list_elem_of_fmap. exists (dk, a + 60 * 0). split; [done|].
      apply Hrun. lia.
Qed.

Lemma merge_maximal_runs_witness :
  py "12-02 | 连续空余 08:00-10:00 (2小时)"
    ∈ build_continuous_periods cfg2 [lineA; lineC; lineB] true
  <-> exists dk a n,
        2 <= n
        /\ py "12-02 | 连续空余 08:00-10:00 (2小时)"
           = format_period dk a (a + 60 * n) n
        /\ max_run (fun z => (dk, z) ∈ entries_of true [lineA; lineC; lineB])
             a n.
Proof.
  apply (merge_maximal_runs cfg2 true [lineA; lineC; lineB]).
  replace (entries_of true [lineA; lineC; lineB])
    with [(py "12-02", 480); (py "12-02", 660); (py "12-02", 540)]
    by (vm_compute; reflexivity).
  intros e e' He He' _. exists ((e'.2 - e.2) `div` 60).
  repeat (apply elem_of_cons in He as [->|He]);
    try (by apply elem_of_nil in He);
    repeat (apply elem_of_cons in He' as [->|He']);
    try (by apply elem_of_nil in He'); reflexivity.
Defined.

Lemma sorted_three (starts : gset Z) a d :
  0 < d < 60 ->
  (forall z, z ∈ starts <-> z = a \/ z = a + d \/ z = a + 60) ->
  sorted starts = [a; a + d; a + 60].
Proof.
  intros Hd Hmem. unfold sorted. apply (Sorted_unique Z.le).
  - apply Sorted_merge_sort. apply _.
  - repeat constructor; lia.
  - rewrite merge_sort_Permutation.
    apply NoDup_Permutation; [apply NoDup_elements | |].
    + repeat constructor; rewrite ?elem_of_cons, ?elem_of_nil; lia.
    + intros z. rewrite elem_of_elements, Hmem, !elem_of_cons, elem_of_nil.
      tauto.
Qed.

(** X11: a start between two starts that are an hour apart breaks their
    run, since the scan compares neighbours of the sorted starts: a date
    with the starts [a], [a + d] and [a + 60], [0 < d < 60], gets three
    periods of one hour when one hour is enough, and none otherwise. *)
Theorem off_grid_start_splits cfg include_morning lines dk a d :
  0 < d < 60 ->
  (forall e, e ∈ entries_of include_morning lines -> e.1 = dk) ->
  (forall z, z ∈ (entries_of include_morning lines).*2
             <-> z = a \/ z = a + d \/ z = a + 60) ->
  build_continuous_periods cfg lines include_morning
  = if decide (LEAST_TIME_LENGTH cfg <= 1)
    then [format_period dk a (a + 60) 1;
          format_period dk (a + d) (a + d + 60) 1;
          format_period dk (a + 60) (a + 60 + 60) 1]
    else [].
Proof.
  intros Hd Hdk Hmem. rewrite build_continuous_periods_eq.
  rewrite (pools_one_date _ dk); [|intros Hnil|done].
  - rewrite bind_singleton. unfold periods_of, merge_date.
    rewrite (sorted_three _ a d Hd)
      by (intros z; by rewrite elem_of_list_to_set).
    cbn [scan_runs].
    destruct (Z.eqb_spec (a + d) (a + 60)); [lia|].
    destruct (Z.eqb_spec (a + 60) (a + d + 60)); [lia|].
    unfold emit. destruct (Z.geb_spec 1 (LEAST_TIME_LENGTH cfg));
      case_decide; done || lia.
  - assert (Ha : a ∈ (entries_of include_morning lines).*2)
      by (apply Hmem; by left).
    rewrite Hnil in Ha. by apply elem_of_nil in Ha.
Qed.

Lemma off_grid_start_splits_witness :
  build_continuous_periods cfg2
    [lineA; py "12-02 周二 | B (08:30-09:30)"; lineB] true = [].
Proof.
  refine (off_grid_start_splits cfg2 true
            [lineA; py "12-02 周二 | B (08:30-09:30)"; lineB]
            (py "12-02") 480 30 _ _ _).
  - lia.
  - replace (entries_of true [lineA; py "12-02 周二 | B (08:30-09:30)"; lineB])
      with [(py "12-02", 480); (py "12-02", 510); (py "12-02", 540)]
      by (vm_compute; reflexivity).
    intros e He. repeat (apply elem_of_cons in He as [->|He]); try reflexivity.
    by apply elem_of_nil in He.
  - replace (entries_of true [lineA; py "12-02 周二 | B (08:30-09:30)"; lineB])
      with [(py "12-02", 480); (py "12-02", 510); (py "12-02", 540)]
      by (vm_compute; reflexivity).
    intros z. simpl. rewrite !elem_of_cons, elem_of_nil. intuition lia.
Defined.

(** ** Lines and reports *)

Lemma join_cons sep x y l :
  join sep (x :: y :: l) = x ++ sep ++ join sep (y :: l).
Proof. reflexivity. Qed.

Lemma split_on_aux_nonempty sep cur s : split_on_aux sep cur s <> [].
Proof. revert cur. induction s as [|c s IH]; intros cur; simpl; [done|]. by case_match. Qed.

(** [sep.join(s.split(sep))] is [s]. *)
Lemma join_split_on_aux sep cur s :
  join [sep] (split_on_aux sep cur s) = rev cur ++ s.
Proof.
  revert cur. induction s as [|c s IH]; intros cur; simpl.
  - by rewrite app_nil_r.
  - destruct (N.eqb_spec c sep) as [->|Hc].
    + pose proof (split_on_aux_nonempty sep [] s) as Hne.
      pose proof (IH []) as IH'.
      destruct (split_on_aux sep [] s) as [|y l]; [done|].
      rewrite join_cons, IH'. done.
    + rewrite IH. simpl. by rewrite <- app_assoc.
Qed.

Lemma join_split_on sep s : join [sep] (split_on sep s) = s.
Proof. apply join_split_on_aux. Qed.

Lemma startswith_spec sub s :
  startswith sub s = true <-> exists t, s = sub ++ t.
Proof.
  revert s. induction sub as [|a sub IH]; intros s; simpl.
  - split; [by exists s | done].
  - destruct s as [|b s]; [split; [done | by intros (t & ?)]|].
    rewrite andb_true_iff, N.eqb_eq, IH. split.
    + intros [-> (t & ->)]. by exists t.
    + intros (t & [= -> ->]). split; [done | by exists t].
Qed.

Lemma contains_spec sub s :
  contains sub s = true <-> exists pre post, s = pre ++ sub ++ post.
Proof.
  induction s as [|b s IH]; cbn [contains]; rewrite orb_true_iff, startswith_spec.
  - split.
    + intros [(t & Ht)|?]; [|done]. by exists [], t.
    + intros (pre & post & H). left.
      destruct pre; [by exists post | done].
  - rewrite IH. split.
    + intros [(t & ->)|(pre & post & ->)]; [by exists [], t|].
      by exists (b :: pre), post.
    + intros ([|c pre] & post & H).
      * left. by exists post.
      * right. injection H as -> ->. by exists pre, post.
Qed.

Lemma startswith_app_sep sub x c rest :
  c ∉ sub -> startswith sub (x ++ c :: rest) = true -> startswith sub x = true.
Proof.
  revert x. induction sub as [|a sub IH]; intros x Hc; [done|].
  destruct x as [|b x]; simpl.
  - rewrite andb_true_iff, N.eqb_eq. intros [-> _]. exfalso. apply Hc. by left.
  - rewrite !andb_true_iff. intros [? H]. split; [done|].
    apply IH; [|done]. intros ?. apply Hc. by right.
Qed.

(** A string without [c] that occurs in [x ++ c :: rest] occurs in [x] or
    in [rest]. *)
Lemma contains_app_sep sub x c rest :
  c ∉ sub -> contains sub (x ++ c :: rest) = true ->
  contains sub x = true \/ contains sub rest = true.
Proof.
  intros Hc. induction x as [|b x IH]; cbn [app contains];
    rewrite !orb_true_iff.
  - intros [H|H]; [|by right]. left. left.
    by apply (startswith_app_sep sub [] c rest).
  - intros [H|H].
    + left. left. by apply (startswith_app_sep sub (b :: x) c rest).
    + destruct (IH H); [left; by right | by right].
Qed.

Lemma contains_join sub c l :
  sub <> [] -> c ∉ sub -> contains sub (join [c] l) = true ->
  exists x, x ∈ l /\ contains sub x = true.
Proof.
  intros Hsub Hc. induction l as [|x [|y l] IH]; cbn [join].
  - by destruct sub.
  - intros H. exists x. split; [by left | done].
  - intros [H|H]%contains_app_sep; [| |done].
    + exists x. split; [by left | done].
    + destruct (IH H) as (z & Hz & ?). exists z. split; [by right | done].
Qed.

Lemma elem_of_join sep (l : list str) x :
  x ∈ l -> exists pre post, join sep l = pre ++ x ++ post.
Proof.
  induction l as [|y [|z l] IH]; [by intros ?%elem_of_nil| |].
  - intros ->%list_elem_of_singleton. exists [], []. by rewrite app_nil_r.
  - intros [->|Hx]%elem_of_cons; rewrite join_cons.
    + by exists [], (sep ++ join sep (z :: l)).
    + destruct (IH Hx) as (pre & post & ->).
      exists (y ++ sep ++ pre), post. by rewrite <- !app_assoc.
Qed.

Lemma contains_within sub pre x post :
  contains sub x = true -> contains sub (pre ++ x ++ post) = true.
Proof.
  rewrite !contains_spec. intros (p & q & ->).
  exists (pre ++ p), (q ++ post). by rewrite <- !app_assoc.
Qed.

Lemma filter_all {A} (f : A -> bool) (l : list A) :
  (forall x, x ∈ l -> f x = true) -> List.filter f l = l.
Proof.
  induction l as [|x l IH]; intros H; simpl; [done|].
  rewrite (H x) by (by left). f_equal. apply IH. intros y Hy. apply H. by right.
Qed.

(** X12: a text report without the morning option never holds the morning
    marker, and a message that does not hold it is returned as it is, line
    breaks included. *)
Theorem report_without_morning report_data c :
  process_report_data false report_data (py "text") = inl c ->
  contains (py "上午") c = false
  /\ (contains (py "上午") (default [] (report_data !! py "message")) = false ->
      c = default [] (report_data !! py "message")).
Proof.
  unfold process_report_data. rewrite decide_True by done. cbn [negb].
  intros [= <-]. set (content := default [] (report_data !! py "message")).
  split.
  - apply not_true_is_false. intros H.
    apply (contains_join _ 10%N) in H as (x & Hx & Hc).
    + apply list_elem_of_In, filter_In in Hx as [_ Hx]. by rewrite Hc in Hx.
    + done.
    + intros H'. vm_compute in H'.
      repeat (apply elem_of_cons in H' as [H'|H']; [discriminate|]).
      by apply elem_of_nil in H'.
  - intros Hno. rewrite filter_all; [apply (join_split_on 10%N)|].
    intros x Hx. apply negb_true_iff, not_true_is_false. intros Hc.
    destruct (elem_of_join [10%N] _ _ Hx) as (pre & post & Heq).
    rewrite join_split_on in Heq.
    rewrite Heq, contains_within in Hno; done.
Qed.

Lemma report_without_morning_witness :
  contains (py "上午")
    (lineA ++ py "
" ++ lineB) = false.
Proof.
  refine (proj1 (report_without_morning
    {[ py "message" := lineA ++ py "
" ++ lineD ++ py "
" ++ lineB ]} _ _)).
  vm_compute. reflexivity.
Defined.

Lemma splitlines_aux_app cur w s :
  Forall (fun c => islinebreak c = false) w ->
  splitlines_aux cur (w ++ s) = splitlines_aux (rev w ++ cur) s.
Proof.
  intros Hw. revert cur. induction Hw as [|c w Hc _ IH]; intros cur; [done|].
  cbn [app splitlines_aux]. rewrite Hc, IH. simpl. by rewrite <- app_assoc.
Qed.

Lemma splitlines_aux_lf cur s :
  splitlines_aux cur (10%N :: s) = rev cur :: splitlines_aux [] s.
Proof. simpl. by destruct s. Qed.

Lemma splitlines_plain w :
  Forall (fun c => islinebreak c = false) w ->
  splitlines w = match w with [] => [] | _ => [w] end.
Proof.
  intros Hw. unfold splitlines.
  rewrite <- (app_nil_r w) at 1. rewrite splitlines_aux_app by done.
  rewrite app_nil_r. simpl. destruct w as [|c w]; [done|].
  destruct (rev (c :: w)) eqn:E; [|by rewrite <- E, rev_involutive].
  simpl in E. by apply app_eq_nil in E as [_ ?].
Qed.

Lemma splitlines_join_cons x y l :
  Forall (fun c => islinebreak c = false) x ->
  splitlines (join [10%N] (x :: y :: l)) = x :: splitlines (join [10%N] (y :: l)).
Proof.
  intros Hx. rewrite join_cons. unfold splitlines.
  rewrite splitlines_aux_app by done. cbn [app].
  by rewrite splitlines_aux_lf, app_nil_r, rev_involutive.
Qed.

Lemma message_lines_join (l : list str) :
  Forall (Forall (fun c => islinebreak c = false)) l ->
  message_lines (join [10%N] l) = signatures l.
Proof.
  unfold message_lines, signatures.
  induction l as [|x l IH]; [done|]. intros [Hx Hl]%Forall_cons.
  destruct l as [|y l].
  - cbn [join]. rewrite splitlines_plain by done. by destruct x.
  - rewrite splitlines_join_cons by done. specialize (IH Hl).
    rewrite (map_cons strip x), (map_cons strip x (y :: l)).
    rewrite (filter_cons _ (strip x)), (filter_cons _ (strip x)).
    case_decide; [f_equal|]; exact IH.
Qed.

(** X13: the report [check_dates_availability] returns for its slot lines is
    read back by [main] line by line: when no slot line holds a line break,
    the lines [main] works on are the stripped slot lines that are not
    blank, in their order. *)
Theorem report_lines_round_trip messages :
  Forall (Forall (fun c => islinebreak c = false)) messages ->
  messages <> [] ->
  (availability_report messages).1 = true
  /\ message_lines (availability_report messages).2 = signatures messages.
Proof.
  intros Hplain Hne. destruct messages as [|m0 messages]; [done|].
  split; [done|]. by apply message_lines_join.
Qed.

Lemma report_lines_round_trip_witness :
  message_lines (availability_report [lineA; py "  "; lineB ++ py " "]).2
  = [lineA; lineB].
Proof.
  refine (eq_trans (proj2 (report_lines_round_trip
                             [lineA; py "  "; lineB ++ py " "] _ _)) _).
  - apply (bool_decide_unpack _). vm_compute. exact I.
  - discriminate.
  - vm_compute. reflexivity.
Defined.

(** ** Soundness of the matcher *)

Section Soundness.
Context {A : Type}.

Lemma orelse_Some (x y : option A) v :
  orelse x y = Some v -> x = Some v \/ y = Some v.
Proof. destruct x; simpl; auto. Qed.

Lemma rep_match_sound cl greedy (k : cont A) s :
  forall lo hi pos g x,
  rep_match cl greedy lo hi pos s g k = Some x ->
  exists w s',
    s = w ++ s'
    /\ Forall (fun c => class_matches cl c = true) w
    /\ (lo <= length w)%nat
    /\ (forall h, hi = Some h -> (length w <= h)%nat)
    /\ k (pos + length w)%nat s' g = Some x.
Proof.
  induction s as [|c s IH]; intros lo hi pos g x H.
  - assert (Hstop : match lo with O => k pos [] g | S _ => None end = Some x).
    { cbn [rep_match] in H. destruct greedy; simpl in H; [done|].
      by apply orelse_Some in H as [H|H]. }
    destruct lo; [|done]. exists [], []. rewrite Nat.add_0_r.
    repeat split; [constructor | done | simpl; lia | done].
  - cbn [rep_match] in H.
    assert (Hcases :
      match lo with O => k pos (c :: s) g | S _ => None end = Some x
      \/ (class_matches cl c && hi_allows hi = true
          /\ rep_match cl greedy (Nat.pred lo) (option_map Nat.pred hi)
               (S pos) s g k = Some x)).
    { destruct greedy; apply orelse_Some in H as [H|H]; auto;
        destruct (class_matches cl c && hi_allows hi); auto; done. }
    destruct Hcases as [Hstop|[Hc Hmore]].
    + destruct lo; [|done]. exists [], (c :: s). rewrite Nat.add_0_r.
      repeat split; [constructor | done | simpl; lia | done].
    + apply andb_true_iff in Hc as [Hc Hhi].
      destruct (IH _ _ _ _ _ Hmore) as (w & s' & -> & Hw & Hlo & Hbound & Hk).
      exists (c :: w), s'. split; [done|]. split; [by constructor|].
      split; [simpl; lia|]. split.
      * intros h ->. destruct h; [done|]. simpl in *.
        specialize (Hbound h eq_refl). lia.
      * simpl. by rewrite Nat.add_succ_r.
Qed.

(** A match consumes a word of the pattern and hands the groups of the
    word to its continuation. *)
Lemma re_match_sound r :
  forall (k : cont A) pos s g x,
  re_match r pos s g k = Some x ->
  exists w s' new,
    s = w ++ s' /\ matches r w new
    /\ k (pos + length w)%nat s' (new ++ g) = Some x.
Proof.
  induction r as [cl|cl greedy lo hi|a IHa b IHb|a IHa b IHb|name a IHa|];
    intros k pos s g x H; cbn [re_match] in H.
  - destruct s as [|c s]; [done|].
    destruct (class_matches cl c) eqn:Hc; [|done].
    exists [c], s, []. split; [done|]. split; [by constructor|].
    simpl. by rewrite Nat.add_1_r.
  - apply rep_match_sound in H as (w & s' & -> & Hw & Hlo & Hhi & Hk).
    exists w, s', []. split; [done|]. split; [by constructor | done].
  - apply IHa in H as (w1 & s1 & g1 & -> & Ha & H).
    apply IHb in H as (w2 & s2 & g2 & -> & Hb & H).
    exists (w1 ++ w2), s2, (g2 ++ g1).
    split; [by rewrite app_assoc|]. split; [by constructor|].
    by rewrite length_app, Nat.add_assoc, <- app_assoc.
  - apply orelse_Some in H as [H|H].
    + apply IHa in H as (w & s' & new & -> & Ha & H).
      exists w, s', new. split; [done|]. split; [by apply matches_Alt_l | done].
    + apply IHb in H as (w & s' & new & -> & Hb & H).
      exists w, s', new. split; [done|]. split; [by apply matches_Alt_r | done].
  - apply IHa in H as (w & s' & new & -> & Ha & H).
    exists w, s', ((name, w) :: new). split; [done|].
    split; [by constructor|].
    replace (pos + length w - pos)%nat with (length w) in H by lia.
    by rewrite firstn_app, Nat.sub_diag, firstn_all, app_nil_r in H.
  - destruct (Nat.eqb pos 0); [|done].
    exists [], s, []. split; [done|]. split; [constructor|].
    by rewrite Nat.add_0_r.
Qed.

End Soundness.

(** A match at a position is a word of the pattern at the head of the
    subject, with its groups. *)
Lemma match_at_sound r pos s m :
  match_at r pos s = Some m ->
  matches r (m_text m) (m_groups m) /\ exists s', s = m_text m ++ s'.
Proof.
  unfold match_at. intros H.
  apply re_match_sound in H as (w & s' & new & -> & Hm & [= <-]).
  cbn [m_text m_groups].
  replace (pos + length w - pos)%nat with (length w) by lia.
  rewrite firstn_app, Nat.sub_diag, firstn_all, !app_nil_r.
  split; [done | by exists s'].
Qed.

Lemma search_from_sound r pos s m :
  search_from r pos s = Some m ->
  exists pre post,
    s = pre ++ post /\ match_at r (pos + length pre) post = Some m.
Proof.
  revert pos. induction s as [|c s IH]; intros pos H; cbn [search_from] in H.
  - apply orelse_Some in H as [H|H]; [|done].
    exists [], []. by rewrite Nat.add_0_r.
  - apply orelse_Some in H as [H|H].
    + exists [], (c :: s). by rewrite Nat.add_0_r.
    + apply IH in H as (pre & post & -> & H).
      exists (c :: pre), post. split; [done|].
      simpl. by rewrite Nat.add_succ_r.
Qed.

(** What [search] finds is a word of the pattern inside the subject. *)
Lemma search_sound r s m :
  search r s = Some m ->
  matches r (m_text m) (m_groups m)
  /\ exists pre post, s = pre ++ m_text m ++ post.
Proof.
  intros (pre & post & -> & H)%search_from_sound.
  apply match_at_sound in H as [Hm (s' & ->)].
  split; [done | by exists pre, s'].
Qed.

(** ** What the parser accepts *)

Lemma decimal_in_bound zeros c d :
  decimal_in zeros c = Some d -> 0 <= d <= 9.
Proof.
  induction zeros as [|z zeros IH]; simpl; [done|].
  destruct (_ && _) eqn:E; [|done]. intros [= <-].
  apply andb_true_iff in E as [?%N.leb_le ?%N.ltb_lt]. lia.
Qed.

Lemma decimal_value_bound c d : decimal_value c = Some d -> 0 <= d <= 9.
Proof. apply decimal_in_bound. Qed.

(** [int] of one or two decimal digits. *)
Lemma int_two_digits s :
  Forall (fun c => isdecimal c = true) s ->
  (1 <= length s <= 2)%nat ->
  exists v, int s = Some v /\ 0 <= v <= 99.
Proof.
  intros Hs Hlen. destruct s as [|a [|b [|c s]]]; simpl in Hlen; try lia.
  - apply Forall_cons in Hs as [Ha _]. unfold isdecimal in Ha.
    destruct (decimal_value a) as [da|] eqn:Ea; [|done].
    apply decimal_value_bound in Ea as ?.
    exists da. simpl. rewrite Ea. split; [done | lia].
  - apply Forall_cons in Hs as [Ha [Hb _]%Forall_cons].
    unfold isdecimal in Ha, Hb.
    destruct (decimal_value a) as [da|] eqn:Ea; [|done].
    destruct (decimal_value b) as [db|] eqn:Eb; [|done].
    apply decimal_value_bound in Ea as ?. apply decimal_value_bound in Eb as ?.
    exists (10 * (10 * 0 + da) + db). simpl. rewrite Ea, Eb. split; [done | lia].
Qed.

(** The words of [\d{1,2}[:：]\d{2}]. *)
Lemma matches_hhmm w g :
  matches hhmm w g ->
  g = []
  /\ exists d1 c d2,
       w = d1 ++ c :: d2
       /\ Forall (fun c => isdecimal c = true) d1 /\ (1 <= length d1 <= 2)%nat
       /\ (c = 58%N \/ c = 65306%N)
       /\ Forall (fun c => isdecimal c = true) d2 /\ length d2 = 2%nat.
Proof.
  unfold hhmm, seq_of, digits. intros H.
  inversion H as [| |a b w1 w23 g1 g23 H1 H23| | | |]; subst; clear H.
  inversion H23 as [| |a b w2 w3 g2 g3 H2 H3| | | |]; subst; clear H23.
  inversion H1 as [|cl gr lo hi w Hw Hlo Hhi| | | | |]; subst; clear H1.
  inversion H2 as [cl c Hc| | | | | |]; subst; clear H2.
  inversion H3 as [|cl gr lo hi w Hw3 Hlo3 Hhi3| | | | |]; subst; clear H3.
  split; [done|]. exists w1, c, w3.
  specialize (Hhi _ eq_refl). specialize (Hhi3 _ eq_refl).
  repeat split; try done; try lia.
  change (py ":：") with [58%N; 65306%N] in Hc. simpl in Hc.
  rewrite orb_false_r in Hc.
  apply orb_true_iff in Hc as [?%N.eqb_eq|?%N.eqb_eq]; auto.
Qed.

(** The words of the time pattern: a label without line feed, [|], and
    the two times as the groups [start] and [end]. *)
Lemma matches_time_re w g :
  matches time_re w g ->
  exists wl ws we rest,
    g = [("end"%string, we); ("start"%string, ws); ("left"%string, wl)]
    /\ w = wl ++ ch "|" :: rest
    /\ Forall (fun c => c <> 10%N) wl
    /\ matches hhmm ws [] /\ matches hhmm we [].
Proof.
  unfold time_re, seq_of, star, lazy_star. intros H.
  repeat match goal with
         | H : matches (Seq _ _) _ _ |- _ => inversion H; subst; clear H
         end.
  repeat match goal with
         | H : matches (Group _ _) _ _ |- _ => inversion H; subst; clear H
         | H : matches (One _) _ _ |- _ => inversion H; subst; clear H
         | H : matches (Rep _ _ _ _) _ _ |- _ => inversion H; subst; clear H
         | H : matches Bol _ _ |- _ => inversion H; subst; clear H
         end.
  repeat match goal with
         | H : matches hhmm _ _ |- _ =>
           let Hg := fresh in
           pose proof (proj1 (matches_hhmm _ _ H)) as Hg; subst; revert H
         end.
  intros Hend Hstart.
  match goal with
  | H : class_matches (CLit (ch "|")) ?c = true |- _ =>
    simpl in H; apply N.eqb_eq in H; subst c
  end.
  match goal with
  | H : Forall _ ?wl |- context [("left"%string, ?wl)] =>
    exists wl; rename H into Hleft
  end.
  eexists _, _, _. split; [reflexivity|]. split; [reflexivity|].
  split; [|done]. eapply Forall_impl; [exact Hleft|].
  intros x Hx ->. discriminate.
Qed.

Lemma replace1_id old new s :
  Forall (fun c => c <> old) s -> replace1 old new s = s.
Proof.
  unfold replace1. induction 1 as [|c s Hc _ IH]; simpl; [done|].
  destruct (N.eqb_spec c old); [done|]. by rewrite IH.
Qed.

Lemma replace1_app old new s1 s2 :
  replace1 old new (s1 ++ s2) = replace1 old new s1 ++ replace1 old new s2.
Proof. apply flat_map_app. Qed.

Lemma split_on_aux_app sep cur w s :
  Forall (fun c => c <> sep) w ->
  split_on_aux sep cur (w ++ s) = split_on_aux sep (rev w ++ cur) s.
Proof.
  intros Hw. revert cur. induction Hw as [|c w Hc _ IH]; intros cur; [done|].
  simpl. destruct (N.eqb_spec c sep); [done|].
  rewrite IH. by rewrite <- app_assoc.
Qed.

Lemma split_on_two sep d1 d2 :
  Forall (fun c => c <> sep) d1 -> Forall (fun c => c <> sep) d2 ->
  split_on sep (d1 ++ sep :: d2) = [d1; d2].
Proof.
  intros H1 H2. unfold split_on. rewrite split_on_aux_app by done.
  simpl. rewrite N.eqb_refl, app_nil_r, rev_involutive. f_equal.
  rewrite <- (app_nil_r d2) at 1. rewrite split_on_aux_app by done.
  simpl. by rewrite app_nil_r, rev_involutive.
Qed.

Lemma decimal_not_separator c :
  isdecimal c = true -> c <> 58%N /\ c <> 65306%N.
Proof. intros H. split; intros ->; vm_compute in H; discriminate. Qed.

(** The start of a matched time range is read as an hour and a minute of
    at most two digits each. *)
Lemma start_minutes ws :
  matches hhmm ws [] ->
  exists sh sm,
    map int (split_on (ch ":") (replace1 (ch "：") (py ":") ws))
    = [Some sh; Some sm]
    /\ 0 <= sh <= 99 /\ 0 <= sm <= 99.
Proof.
  intros (_ & d1 & c & d2 & -> & Hd1 & Hl1 & Hc & Hd2 & Hl2)%matches_hhmm.
  destruct (int_two_digits d1 Hd1 Hl1) as (sh & Hsh & ?).
  destruct (int_two_digits d2 Hd2 ltac:(lia)) as (sm & Hsm & ?).
  exists sh, sm. split; [|done].
  change (ch "：") with 65306%N. change (ch ":") with 58%N.
  change (py ":") with [58%N].
  assert (H58 : forall d, Forall (fun c => isdecimal c = true) d ->
                          Forall (fun c => c <> 58%N) d).
  { intros d Hd. eapply Forall_impl; [exact Hd|].
    intros x Hx. by apply decimal_not_separator. }
  assert (H65306 : forall d, Forall (fun c => isdecimal c = true) d ->
                             Forall (fun c => c <> 65306%N) d).
  { intros d Hd. eapply Forall_impl; [exact Hd|].
    intros x Hx. by apply decimal_not_separator. }
  rewrite replace1_app, (replace1_id _ _ d1) by auto.
  change (c :: d2) with ([c] ++ d2).
  rewrite replace1_app, (replace1_id _ _ d2) by auto.
  assert (replace1 65306%N [58%N] [c] = [58%N]) as ->.
  { destruct Hc as [-> | ->]; reflexivity. }
  simpl. rewrite split_on_two by auto. simpl. by rewrite Hsh, Hsm.
Qed.

Lemma match_at_time_re_start pos s m :
  match_at time_re pos s = Some m -> pos = 0%nat.
Proof.
  unfold match_at, time_re, seq_of. cbn [re_match].
  destruct (Nat.eqb_spec pos 0); done.
Qed.

(** What a match of the time pattern in a line gives the parser. *)
Lemma search_time_re line m :
  search time_re line = Some m ->
  exists wl ws rest,
    line = wl ++ ch "|" :: rest
    /\ Forall (fun c => c <> 10%N) wl
    /\ group m "left" = wl /\ group m "start" = ws
    /\ matches hhmm ws [].
Proof.
  intros (pre & post & -> & H)%search_from_sound.
  pose proof (match_at_time_re_start _ _ _ H) as Hpos.
  destruct pre; [|done]. clear Hpos.
  apply match_at_sound in H as [Hm (s' & Hs)].
  apply matches_time_re in Hm as (wl & ws & we & rest & Hg & Ht & Hl & Hs1 & _).
  exists wl, ws, (rest ++ s'). unfold group. rewrite Hg.
  split; [|done]. simpl. rewrite Hs, Ht. by rewrite <- app_assoc.
Qed.

(** X14: once the time pattern matches a line, the line gives an entry: the
    reading of the hour and the minute cannot fail.  A line is skipped only
    when it is empty, when it is a morning line and mornings are left out,
    or when the time pattern does not match it. *)
Theorem parse_line_skips include_morning line :
  parse_line include_morning line = None
  <-> line = []
      \/ (include_morning = false /\ contains (py "上午") line = true)
      \/ search time_re line = None.
Proof.
  unfold parse_line. destruct line as [|c line]; [by split; [left|]|].
  destruct include_morning; cbn [negb andb].
  - destruct (search time_re (c :: line)) as [m|] eqn:Hm.
    + apply search_time_re in Hm as (wl & ws & rest & _ & _ & _ & -> & Hs).
      destruct (start_minutes _ Hs) as (sh & sm & -> & _).
      split; [done | intros [?|[[? _]|?]]; done].
    + split; [by right; right | done].
  - destruct (contains (py "上午") (c :: line)); [by split; [right; left|]|].
    destruct (search time_re (c :: line)) as [m|] eqn:Hm.
    + apply search_time_re in Hm as (wl & ws & rest & _ & _ & _ & -> & Hs).
      destruct (start_minutes _ Hs) as (sh & sm & -> & _).
      split; [done | intros [?|[[_ ?]|?]]; done].
    + split; [by right; right | done].
Qed.

(** X15: the start minute of an entry is between 0 and 6039: the hour and
    the minute are read as written, each of at most two digits, and are not
    checked against the clock; its date key is the key of a label that the
    line begins with, followed by [|] and free of line feeds. *)
Theorem parse_line_entry include_morning line dk t :
  parse_line include_morning line = Some (dk, t) ->
  0 <= t <= 6039
  /\ exists label rest,
       line = label ++ ch "|" :: rest
       /\ Forall (fun c => c <> 10%N) label
       /\ dk = normalize_date_key label.
Proof.
  unfold parse_line. destruct line as [|c line]; [done|].
  destruct (negb include_morning && contains (py "上午") (c :: line)); [done|].
  destruct (search time_re (c :: line)) as [m|] eqn:Hm; [|done].
  apply search_time_re in Hm as (wl & ws & rest & Hline & Hwl & -> & -> & Hs).
  destruct (start_minutes _ Hs) as (sh & sm & -> & Hsh & Hsm).
  intros [= <- <-]. split; [lia|]. exists wl, rest.
  split; [exact Hline|]. split; [exact Hwl | reflexivity].
Qed.

Lemma parse_line_entry_witness :
  0 <= 5999 <= 6039
  /\ exists label rest,
       py "12-02 | A (99:59-10:00)" = label ++ ch "|" :: rest
       /\ Forall (fun c => c <> 10%N) label
       /\ py "12-02" = normalize_date_key label.
Proof.
  apply (parse_line_entry true (py "12-02 | A (99:59-10:00)") (py "12-02") 5999).
  vm_compute. reflexivity.
Defined.

(** ** The shape of a date key *)

Lemma isspace_values c :
  isspace c = true ->
  In c [9; 10; 11; 12; 13; 28; 29; 30; 31; 32; 133; 160; 5760; 8192; 8193;
        8194; 8195; 8196; 8197; 8198; 8199; 8200; 8201; 8202; 8232; 8233;
        8239; 8287; 12288]%N.
Proof.
  unfold isspace.
  rewrite !orb_true_iff, !andb_true_iff, !N.leb_le, !N.eqb_eq.
  intros H. simpl. lia.
Qed.

(** No decimal digit is whitespace. *)
Lemma decimal_not_space c : isdecimal c = true -> isspace c = false.
Proof.
  intros Hd. apply not_true_is_false. intros Hs%isspace_values.
  simpl in Hs.
  repeat (destruct Hs as [<-|Hs]; [vm_compute in Hd; discriminate|]).
  done.
Qed.

Lemma matches_digits_nospace lo hi w g :
  matches (digits lo hi) w g ->
  Forall (fun c => isspace c = false) w /\ (lo <= length w)%nat.
Proof.
  unfold digits. intros H.
  inversion H as [|cl gr lo' hi' w' Hw Hlo Hhi| | | | |]; subst.
  split; [|done]. eapply Forall_impl; [exact Hw|].
  intros c Hc. by apply decimal_not_space.
Qed.

Lemma matches_sep_nospace cs g w :
  matches (One (COneOf cs)) w g ->
  Forall (fun c => isspace c = false) cs ->
  Forall (fun c => isspace c = false) w.
Proof.
  intros H Hcs. inversion H as [cl c' Hc| | | | | |]; subst.
  constructor; [|constructor]. simpl in Hc.
  apply existsb_exists in Hc as (x & Hx & ->%N.eqb_eq).
  by apply (proj1 (Forall_forall _ _) Hcs), list_elem_of_In.
Qed.

Lemma matches_lit_nospace c0 g w :
  matches (One (CLit c0)) w g ->
  isspace c0 = false ->
  Forall (fun c => isspace c = false) w.
Proof.
  intros H Hc0. inversion H as [cl c' Hc| | | | | |]; subst.
  simpl in Hc. apply N.eqb_eq in Hc as ->. by repeat constructor.
Qed.

(** A word of the date pattern is not empty and holds no whitespace. *)
Lemma matches_date_re w g :
  matches date_re w g -> w <> [] /\ Forall (fun c => isspace c = false) w.
Proof.
  unfold date_re, full_date_re, month_day_re, cn_month_day_re, seq_of.
  intros H.
  repeat match goal with
         | H : matches (Alt _ _) _ _ |- _ => inversion H; subst; clear H
         | H : matches (Group _ _) _ _ |- _ => inversion H; subst; clear H
         | H : matches (Seq _ _) _ _ |- _ => inversion H; subst; clear H
         end;
  repeat match goal with
         | H : matches (digits _ _) _ _ |- _ =>
           apply matches_digits_nospace in H as [? ?]
         | H : matches (One (COneOf _)) _ _ |- _ =>
           apply matches_sep_nospace in H;
             [|apply (bool_decide_unpack _); vm_compute; exact I]
         | H : matches (One (CLit _)) _ _ |- _ =>
           apply matches_lit_nospace in H; [|vm_compute; reflexivity]
         end;
  (split; [|repeat (apply Forall_app; split); done]);
  match goal with
  | H : (_ <= length ?w)%nat |- ?w ++ _ <> [] =>
    destruct w; [simpl in H; lia | done]
  end.
Qed.

(** The first token of a string that begins a token: the longest prefix
    without whitespace. *)
Lemma split_aux_hd cur s :
  cur <> [] -> Forall (fun c => isspace c = false) cur ->
  exists w post,
    s = w ++ post
    /\ hd [] (split_aux cur s) = rev cur ++ w
    /\ Forall (fun c => isspace c = false) w.
Proof.
  revert cur. induction s as [|c s IH]; intros cur Hne Hcur.
  - exists [], []. simpl. rewrite app_nil_r. by destruct cur.
  - simpl. destruct (isspace c) eqn:Hc.
    + exists [], (c :: s). rewrite app_nil_r. by destruct cur.
    + destruct (IH (c :: cur)) as (w & post & -> & Hhd & Hw);
        [done | by constructor|].
      exists (c :: w), post. split; [done|]. split; [|by constructor].
      rewrite Hhd. simpl. by rewrite <- app_assoc.
Qed.

Lemma strip_head s c t : strip s = c :: t -> isspace c = false.
Proof.
  unfold strip. intros E. destruct (lstrip s) as [|c' t'] eqn:E'; [done|].
  pose proof (lstrip_head _ _ _ E') as Hc'.
  rewrite rstrip_cons_nonspace in E by done. by injection E as <- _.
Qed.

(** X16: the date key of a blank label is empty; that of any other label is
    a piece of the stripped label that is not empty and holds no
    whitespace. *)
Theorem date_key_shape label :
  (strip label = [] -> normalize_date_key label = [])
  /\ (strip label <> [] ->
      normalize_date_key label <> []
      /\ Forall (fun c => isspace c = false) (normalize_date_key label)
      /\ exists pre post,
           strip label = pre ++ normalize_date_key label ++ post).
Proof.
  unfold normalize_date_key. destruct (strip label) as [|c l] eqn:E; [done|].
  split; [done|]. intros _.
  destruct (search date_re (c :: l)) as [dm|] eqn:Hs.
  - apply search_sound in Hs as [Hm Hin].
    apply matches_date_re in Hm as [Hne Hsp]. done.
  - pose proof (strip_head _ _ _ E) as Hc.
    unfold split. simpl. rewrite Hc.
    destruct (split_aux_hd [c] l) as (w & post & -> & -> & Hw);
      [done | by repeat constructor|].
    simpl. split; [done|]. split; [by constructor|].
    by exists [], post.
Qed.

(** ** Period lines as signatures *)

Lemma rstrip_snoc_nonspace w c :
  isspace c = false -> rstrip (w ++ [c]) = w ++ [c].
Proof.
  intros Hc. unfold rstrip. rewrite rev_app_distr. simpl. rewrite Hc.
  simpl. by rewrite rev_involutive.
Qed.

Lemma format_period_last dk a e n :
  exists w, format_period dk a e n = dk ++ w ++ [ch ")"].
Proof.
  exists (py " | 连续空余 " ++ format_02d (a `div` 60) ++ py ":"
            ++ format_02d (a `mod` 60) ++ py "-" ++ format_02d (e `div` 60)
            ++ py ":" ++ format_02d (e `mod` 60) ++ py " (" ++ format_d n
            ++ py "小时").
  unfold format_period. change (py "小时)") with (py "小时" ++ [ch ")"]).
  cbv zeta. by rewrite <- !app_assoc.
Qed.

(** A period line of a date key that begins with no whitespace is left as
    it is by [strip]. *)
Lemma strip_format_period c dk a e n :
  isspace c = false ->
  strip (format_period (c :: dk) a e n) = format_period (c :: dk) a e n
  /\ format_period (c :: dk) a e n <> [].
Proof.
  intros Hc. destruct (format_period_last (c :: dk) a e n) as (w & ->).
  split; [|done]. unfold strip.
  rewrite <- app_comm_cons, lstrip_nonspace by done.
  rewrite app_comm_cons, app_assoc. by apply rstrip_snoc_nonspace.
Qed.

Lemma scan_runs_shape cfg dk rest :
  forall cs cp cl result x,
  x ∈ scan_runs cfg dk cs cp cl rest result ->
  x ∈ result \/ exists a e n, x = format_period dk a e n.
Proof.
  assert (Hemit : forall cs cp cl result x,
    x ∈ emit cfg dk cs cp cl result ->
    x ∈ result \/ exists a e n, x = format_period dk a e n).
  { intros cs cp cl result x. unfold emit. case_match; [|by left].
    intros [?|Hx]%elem_of_app; [by left|].
    apply list_elem_of_singleton in Hx as ->.
    right. by eexists _, _, _. }
  induction rest as [|s rest IH]; intros cs cp cl result x; cbn [scan_runs].
  - apply Hemit.
  - case_match; [apply IH|]. intros [Hx|Hx]%IH; [|by right].
    by apply Hemit in Hx.
Qed.

(** Every line of the result is the period line of the date key of some
    parsed entry. *)
Lemma build_shape cfg lines include_morning x :
  x ∈ build_continuous_periods cfg lines include_morning ->
  exists dk a e n,
    x = format_period dk a e n
    /\ dk ∈ (entries_of include_morning lines).*1.
Proof.
  rewrite build_continuous_periods_eq, list_elem_of_bind.
  intros ([dk starts] & Hx & [Hdk _]%elem_of_pools).
  unfold periods_of, merge_date in Hx. destruct (sorted starts); [by apply elem_of_nil in Hx|].
  apply scan_runs_shape in Hx as [Hx|(a & e & n & ->)];
    [by apply elem_of_nil in Hx|].
  by exists dk, a, e, n.
Qed.

(** X17: when no parsed entry has an empty date key, that is when no
    matched line has a blank label, the period lines are their own
    signatures: the memory keeps and notifies them as they were built. *)
Theorem period_lines_are_signatures cfg lines include_morning :
  (forall e, e ∈ entries_of include_morning lines -> e.1 <> []) ->
  signatures (build_continuous_periods cfg lines include_morning)
  = build_continuous_periods cfg lines include_morning.
Proof.
  intros Hkeys. apply signatures_stripped, Forall_forall. intros x Hx.
  apply build_shape in Hx as (dk & a & e & n & -> & Hdk).
  apply list_elem_of_fmap in Hdk as ([dk' t] & -> & He). simpl.
  pose proof (Hkeys _ He) as Hne. simpl in Hne.
  apply elem_of_entries_of in He as (ln & _ & Hparse).
  apply parse_line_entry in Hparse as (_ & label & rest & _ & _ & ->).
  destruct (date_key_shape label) as [Hblank Hshape].
  destruct (decide (strip label = [])) as [Hb|Hb]; [by apply Hblank in Hb|].
  destruct (Hshape Hb) as (_ & Hsp & _).
  destruct (normalize_date_key label) as [|c dk]; [done|].
  apply Forall_cons in Hsp as [Hc _]. by apply strip_format_period.
Qed.

Lemma period_lines_are_signatures_witness :
  signatures (build_continuous_periods cfg2 [lineA; lineB] true)
  = build_continuous_periods cfg2 [lineA; lineB] true.
Proof.
  apply (period_lines_are_signatures cfg2 [lineA; lineB] true).
  replace (entries_of true [lineA; lineB])
    with [(py "12-02", 480); (py "12-02", 540)] by (vm_compute; reflexivity).
  intros e He. repeat (apply elem_of_cons in He as [->|He]); try discriminate.
  by apply elem_of_nil in He.
Defined.
